(** * service-worker.js: cache-first service worker of the Registro
    Escuadrones PWA, embedded in Rocq.

    The worker is a chain of promise continuations over two pieces of
    platform state, the origin's CacheStorage and the network.  The
    embedding keeps that shape: a [promise] is a state-passing computation
    over a [world] (cache storage plus the trace of platform calls) that is
    either fulfilled with a value or rejected; [then_] and [catch_] are the
    two promise combinators the source uses; a promise the source starts
    but neither returns nor awaits is run through [detach].

    Platform conventions fixed by the model (they are the browser's, the
    worker's source relies on them):
    - a request matches a cached entry when their URLs are equal once the
      fragment is left out and the cached response does not vary on
      everything ([Vary: *]); requests carry no header fields here, so two
      requests for one URL agree on every header a response may name in
      [Vary];
    - CacheStorage lists its caches in creation order and [caches.match]
      answers from the first cache that has a matching entry;
    - [cache.put] refuses a partial response (status 206) and a response
      with [Vary: *]; otherwise it removes the entries the request matches
      and appends the new one; [cache.add]/[cache.addAll] are
      all-or-nothing and reject on a network failure and on a response that
      is of type error, not ok (status outside 200..299), partial or
      [Vary: *];
    - a fetch is answered, fails, or never settles; a promise that waits
      for one that never settles stays pending;
    - a relative URL ['./x'] is resolved against the directory of the
      worker script;
    - continuations run one after the other: a detached continuation takes
      effect before the next event is handled. *)

From Stdlib Require Import String Ascii List Bool ZArith.
Import ListNotations.
Open Scope string_scope.
Open Scope list_scope.

(** ** JavaScript string methods used by the worker *)

Module JsString.

(** [s.startsWith(p)] *)
Definition startsWith (s p : string) : bool := String.prefix p s.

(** [s.includes(sub)]: [sub] occurs somewhere in [s]. *)
Fixpoint includes (s sub : string) : bool :=
  String.prefix sub s ||
  match s with
  | EmptyString => false
  | String _ rest => includes rest sub
  end.

(** [s.slice(n)] *)
Fixpoint slice (n : nat) (s : string) : string :=
  match n, s with
  | O, _ => s
  | S _, EmptyString => EmptyString
  | S k, String _ rest => slice k rest
  end.

End JsString.

(** ** Platform data *)

Inductive response_type : Type :=
| basic | cors | default | error | opaque | opaqueredirect.

Definition response_type_eqb (a b : response_type) : bool :=
  match a, b with
  | basic, basic | cors, cors | default, default
  | error, error | opaque, opaque | opaqueredirect, opaqueredirect => true
  | _, _ => false
  end.

(** [vary] holds the field names listed in the response's Vary header. *)
Record Response : Type := mkResponse {
  status : Z;
  type : response_type;
  body : string;
  vary : list string
}.

(** [response.ok] *)
Definition ok (r : Response) : bool :=
  ((200 <=? status r) && (status r <=? 299))%Z.

(** The response varies on everything: its Vary header lists [*]. *)
Definition vary_any (r : Response) : bool :=
  existsb (String.eqb "*") (vary r).

(** What [cache.put] accepts. *)
Definition storable (r : Response) : bool :=
  negb (status r =? 206)%Z && negb (vary_any r).

(** What [cache.add] and [cache.addAll] accept of a fetched response. *)
Definition addable (r : Response) : bool :=
  negb (response_type_eqb (type r) error) && ok r && storable r.

Record Request : Type := mkRequest {
  method : string;
  url : string
}.

(** A cache is the ordered list of its entries, keyed by request URL; the
    CacheStorage is the ordered list of the named caches. *)
Definition Cache : Type := list (string * Response).
Definition CacheStorage : Type := list (string * Cache).

(** The network as one event sees it: [None] when the fetch of a URL fails
    (the promise rejects), the response otherwise. *)
Definition network : Type := string -> option Response.

(** The network with the third possibility: a fetch that never settles. *)
Inductive net_reply : Type :=
| Answers (r : Response)
| Fails
| Hangs.

Definition connection : Type := string -> net_reply.

Definition settled (net : network) : connection :=
  fun u => match net u with
           | Some r => Answers r
           | None => Fails
           end.

Coercion settled : network >-> connection.

(** What a page can send: [event.data] is falsy, or a value whose [type]
    property is absent or a string; [event.ports] are the transferred
    ports. *)
Inductive js_data : Type :=
| Falsy
| Truthy (type_prop : option string).

Record MessageEvent : Type := mkMessage {
  data : js_data;
  ports : list nat
}.

(** Platform calls, as they are traced. *)
Inductive effect : Type :=
| CacheLookup (u : string)                         (* caches.match *)
| NetFetch (u : string)                            (* fetch, cache.add *)
| CacheAdd (cache u : string) (r : Response)       (* entry written by add/addAll *)
| CachePut (cache u : string) (r : Response)       (* entry written by put *)
| CacheDelete (cache : string)                     (* caches.delete *)
| SkipWaiting                                      (* self.skipWaiting *)
| ClientsClaim                                     (* self.clients.claim *)
| PostMessage (port : nat) (cached : list string) (count : nat).

Record world : Type := mkWorld {
  store : CacheStorage;
  log : list effect          (* most recent call first *)
}.

(** ** Cache storage operations on the data *)

(** The URL without its fragment. *)
Fixpoint without_fragment (u : string) : string :=
  match u with
  | EmptyString => EmptyString
  | String c rest =>
      if (c =? "#")%char then EmptyString else String c (without_fragment rest)
  end.

Definition same_resource (a b : string) : bool :=
  without_fragment a =? without_fragment b.

(** A request for [u] matches the cached entry [e]. *)
Definition entry_matches (u : string) (e : string * Response) : bool :=
  same_resource (fst e) u && negb (vary_any (snd e)).

Definition has_url (u : string) (c : Cache) : bool :=
  existsb (entry_matches u) c.

Definition cache_match (c : Cache) (u : string) : option Response :=
  option_map snd (find (entry_matches u) c).

Definition cache_remove (u : string) (c : Cache) : Cache :=
  filter (fun e => negb (entry_matches u e)) c.

Definition cache_store (u : string) (r : Response) (c : Cache) : Cache :=
  cache_remove u c ++ [(u, r)].

Definition find_cache (name : string) (s : CacheStorage) : option Cache :=
  option_map snd (find (fun e => fst e =? name) s).

Definition storage_open (name : string) (s : CacheStorage) : CacheStorage :=
  match find_cache name s with
  | Some _ => s
  | None => s ++ [(name, [])]
  end.

Definition storage_update (name : string) (f : Cache -> Cache)
    (s : CacheStorage) : CacheStorage :=
  map (fun e => if fst e =? name then (fst e, f (snd e)) else e) s.

Definition storage_delete (name : string) (s : CacheStorage) : CacheStorage :=
  filter (fun e => negb (fst e =? name)) s.

Fixpoint storage_match (s : CacheStorage) (u : string) : option Response :=
  match s with
  | [] => None
  | (_, c) :: rest =>
      match cache_match c u with
      | Some r => Some r
      | None => storage_match rest u
      end
  end.

(** ** Promises *)

Inductive outcome (A : Type) : Type :=
| Fulfilled (a : A)
| Rejected
| Pending.
Arguments Fulfilled {A} a.
Arguments Rejected {A}.
Arguments Pending {A}.

Definition promise (A : Type) : Type := world -> outcome A * world.

Definition resolve {A} (a : A) : promise A := fun w => (Fulfilled a, w).

Definition reject {A} : promise A := fun w => (Rejected, w).

(** A promise that never settles. *)
Definition pending {A} : promise A := fun w => (Pending, w).

Definition then_ {A B} (p : promise A) (f : A -> promise B) : promise B :=
  fun w =>
    match p w with
    | (Fulfilled a, w') => f a w'
    | (Rejected, w') => (Rejected, w')
    | (Pending, w') => (Pending, w')
    end.

Definition catch_ {A} (p : promise A) (h : promise A) : promise A :=
  fun w =>
    match p w with
    | (Fulfilled a, w') => (Fulfilled a, w')
    | (Rejected, w') => h w'
    | (Pending, w') => (Pending, w')
    end.

(** A promise that is started and dropped: its effects happen, its value
    and its rejection are seen by nobody. *)
Definition detach {A} (p : promise A) : promise unit :=
  fun w => (Fulfilled tt, snd (p w)).

(** [Promise.all]: every promise of the list has been started, so all of
    them run; the result rejects when one of them does, and otherwise
    stays pending when one of them never settles. *)
Definition all_settled {A} (o : outcome A) (os : outcome (list A))
  : outcome (list A) :=
  match o, os with
  | Rejected, _ => Rejected
  | _, Rejected => Rejected
  | Pending, _ => Pending
  | _, Pending => Pending
  | Fulfilled a, Fulfilled l => Fulfilled (a :: l)
  end.

Fixpoint promise_all {A} (ps : list (promise A)) : promise (list A) :=
  match ps with
  | [] => resolve []
  | p :: rest =>
      fun w =>
        let (o, w1) := p w in
        let (os, w2) := promise_all rest w1 in
        (all_settled o os, w2)
  end.

Declare Scope promise_scope.
Delimit Scope promise_scope with promise.
Notation "x <- p ;; k" := (then_ p (fun x => k))
  (at level 61, p at next level, right associativity) : promise_scope.
Notation "p ;; k" := (then_ p (fun _ => k))
  (at level 61, right associativity) : promise_scope.
Open Scope promise_scope.

Definition trace (e : effect) : promise unit :=
  fun w => (Fulfilled tt, mkWorld (store w) (e :: log w)).

Definition set_store (f : CacheStorage -> CacheStorage) : promise unit :=
  fun w => (Fulfilled tt, mkWorld (f (store w)) (log w)).

Definition get_store : promise CacheStorage :=
  fun w => (Fulfilled (store w), w).

(** ** The worker's constants (lines 6-20) *)

Definition CACHE_NAME : string := "registro-escuadrones-v1".
Definition CACHE_OFFLINE : string := "registro-escuadrones-offline-v1".

Definition FONTS_CSS : string :=
  "https://fonts.googleapis.com/css2?family=Syne:wght@400;700;800&family=DM+Mono:wght@400;500&family=Newsreader:ital,wght@0,400;0,600;1,400&display=swap".

Definition ASSETS_TO_CACHE : list string :=
  [ "./comensales.html";
    "./manifest.json";
    "./icon-192.png";
    "./icon-512.png";
    FONTS_CSS ].

Definition OFFLINE_FALLBACK : string := "./comensales.html".

(** ** The platform calls and the four handlers *)

Inductive fetch_disposition : Type :=
| NotIntercepted                                  (* the handler returned without respondWith *)
| RespondWith (o : outcome (option Response)).    (* what the promise given to respondWith settles to *)

Section Worker.

(** [self.location.origin], and the path of the directory the worker
    script is served from (["/"] at a site's root). *)
Variable location_origin : string.
Variable location_dir : string.

(** A URL string handed to the platform is parsed against the worker's
    base URL; the worker only uses ['./name'] and absolute URLs. *)
Definition absolute_url (u : string) : string :=
  if JsString.startsWith u "./"
  then (location_origin ++ location_dir ++ JsString.slice 2 u)%string
  else u.

Definition caches_open (name : string) : promise string :=
  set_store (storage_open name) ;; resolve name.

Definition caches_keys : promise (list string) :=
  s <- get_store ;; resolve (map fst s).

Definition caches_delete (name : string) : promise bool :=
  s <- get_store ;;
  trace (CacheDelete name) ;;
  set_store (storage_delete name) ;;
  resolve (existsb (fun e => fst e =? name) s).

Definition caches_match (request : Request) : promise (option Response) :=
  trace (CacheLookup (url request)) ;;
  s <- get_store ;;
  resolve (storage_match s (url request)).

(** [caches.match] called with a string. *)
Definition caches_match_url (u : string) : promise (option Response) :=
  caches_match (mkRequest "GET" (absolute_url u)).

Definition cache_keys (cache : string) : promise (list Request) :=
  s <- get_store ;;
  resolve (match find_cache cache s with
           | Some c => map (fun e => mkRequest "GET" (fst e)) c
           | None => []
           end).

Definition cache_put (cache : string) (request : Request) (r : Response)
  : promise unit :=
  if storable r
  then
    trace (CachePut cache (url request) r) ;;
    set_store (storage_update cache (cache_store (url request) r))
  else reject.

Definition fetch (net : connection) (u : string) : promise Response :=
  trace (NetFetch u) ;;
  match net u with
  | Answers r => resolve r
  | Fails => reject
  | Hangs => pending
  end.

Fixpoint cache_write_all (cache : string) (l : list (string * Response))
  : promise unit :=
  match l with
  | [] => resolve tt
  | (u, r) :: rest =>
      trace (CacheAdd cache u r) ;;
      set_store (storage_update cache (cache_store u r)) ;;
      cache_write_all cache rest
  end.

Definition cache_addAll (net : connection) (cache : string) (urls : list string)
  : promise unit :=
  rs <- promise_all
          (map (fun u => r <- fetch net (absolute_url u) ;;
                         if addable r then resolve r else reject) urls) ;;
  cache_write_all cache (combine (map absolute_url urls) rs).

Definition cache_add (net : connection) (cache : string) (u : string)
  : promise unit :=
  cache_addAll net cache [u].

Definition skipWaiting : promise unit := trace SkipWaiting.
Definition clients_claim : promise unit := trace ClientsClaim.

(** [port.postMessage] on [event.ports[0]]: reading a property of
    [undefined] throws, which rejects the continuation it is in. *)
Definition ports0_postMessage (event : MessageEvent)
    (cached : list string) (count : nat) : promise unit :=
  match nth_error (ports event) 0 with
  | Some port => trace (PostMessage port cached count)
  | None => reject
  end.

(** *** install (lines 25-50); the promise is the one given to
    [event.waitUntil] *)
Definition on_install (net : connection) : promise unit :=
  then_
    (then_ (caches_open CACHE_NAME) (fun cache =>
       then_ (cache_addAll net cache ["./comensales.html"; "./manifest.json"])
         (fun _ => catch_ (cache_add net cache FONTS_CSS) (resolve tt))))
    (fun _ => skipWaiting).

(** *** activate (lines 55-73) *)
Definition on_activate : promise unit :=
  then_
    (then_ caches_keys (fun cacheNames =>
       promise_all
         (map (fun name => caches_delete name)
            (filter (fun name => negb (name =? CACHE_NAME)
                                 && negb (name =? CACHE_OFFLINE))
               cacheNames))))
    (fun _ => clients_claim).

(** *** fetch (lines 81-141) *)

(** lines 120-123 *)
Definition shouldCache (u : string) : bool :=
  JsString.includes u location_origin
  || JsString.includes u "fonts.googleapis.com"
  || JsString.includes u "fonts.gstatic.com".

(** lines 99-101 and 127-129: the chain is started and dropped, and so is
    the [put] inside it. *)
Definition store_copy (request : Request) (responseClone : Response)
  : promise unit :=
  detach (then_ (caches_open CACHE_NAME) (fun cache =>
            detach (cache_put cache request responseClone))).

(** lines 95-105.  A fulfilled [fetch] carries a Response object, so the
    [networkResponse &&] of line 97 is always passed. *)
Definition fetchPromise (net : connection) (request : Request)
  : promise (option Response) :=
  catch_
    (then_ (fetch net (url request)) (fun networkResponse =>
       (if (status networkResponse =? 200)%Z
        then store_copy request networkResponse
        else resolve tt) ;;
       resolve (Some networkResponse)))
    (resolve None).

(** lines 111-138.  A fulfilled [fetch] carries a Response object, so the
    [!networkResponse] disjunct of line 114 is never the one that
    decides. *)
Definition fetch_miss (net : connection) (request : Request)
  : promise (option Response) :=
  catch_
    (then_ (fetch net (url request)) (fun networkResponse =>
       if negb (status networkResponse =? 200)%Z
          || response_type_eqb (type networkResponse) error
       then resolve (Some networkResponse)
       else
         (if shouldCache (url request)
          then store_copy request networkResponse
          else resolve tt) ;;
         resolve (Some networkResponse)))
    (caches_match_url OFFLINE_FALLBACK).

Definition on_fetch (net : connection) (request : Request) (w : world)
  : fetch_disposition * world :=
  if negb (method request =? "GET") then (NotIntercepted, w)
  else if negb (JsString.startsWith (url request) "http")
  then (NotIntercepted, w)
  else
    let (o, w') :=
      then_ (caches_match request) (fun cachedResponse =>
        match cachedResponse with
        | Some cached =>
            detach (fetchPromise net request) ;;
            resolve (Some cached)
        | None => fetch_miss net request
        end) w
    in (RespondWith o, w').

(** *** message (lines 146-164).  The handler returns nothing; the
    outcome kept here is that of the continuation of lines 156-161, which
    the source drops: [Rejected] is an exception thrown inside it. *)
Definition type_is (d : js_data) (t : string) : bool :=
  match d with
  | Truthy (Some t') => t' =? t
  | _ => false
  end.

Definition on_message (event : MessageEvent) : promise unit :=
  (if type_is (data event) "SKIP_WAITING" then skipWaiting else resolve tt) ;;
  if type_is (data event) "GET_CACHE_STATUS"
  then
    then_ (caches_open CACHE_NAME) (fun cache =>
      then_ (cache_keys cache) (fun keys =>
        ports0_postMessage event (map url keys) (length keys)))
  else resolve tt.

End Worker.

(** ** The cacheable-origin policy in the specification's words

    The specification caches a response "only if the request URL belongs to
    the worker's own origin, or to either of two approved external
    font-serving hosts".  [belongs_to_policy] states that on the parts of an
    absolute URL [scheme://host:port/path?query#fragment]; it is the
    specification's reading, to be compared with [shouldCache], which is
    the source's. *)

Module SpecPolicy.

Definition is_one_of (stops : list ascii) (c : ascii) : bool :=
  existsb (Ascii.eqb c) stops.

Fixpoint take_until (stops : list ascii) (s : string) : string :=
  match s with
  | EmptyString => EmptyString
  | String c rest =>
      if is_one_of stops c then EmptyString
      else String c (take_until stops rest)
  end.

Definition url_scheme (u : string) : string := take_until [":"]%char u.

(** What follows the scheme, from its colon on. *)
Definition after_scheme (u : string) : string :=
  JsString.slice (String.length (url_scheme u)) u.

(** [host:port] of a URL [scheme://host:port/...]; a URL of another shape
    (mailto:, data:, ...) has none. *)
Definition url_authority (u : string) : option string :=
  if String.prefix "://" (after_scheme u)
  then Some (take_until ["/"; "?"; "#"]%char (JsString.slice 3 (after_scheme u)))
  else None.

Definition url_host (u : string) : option string :=
  option_map (take_until [":"]%char) (url_authority u).

(** [scheme://host:port], the form of [self.location.origin]. *)
Definition url_origin (u : string) : option string :=
  option_map (fun a => (url_scheme u ++ "://" ++ a)%string) (url_authority u).

Definition is_some_string (o : option string) (s : string) : bool :=
  match o with
  | Some x => x =? s
  | None => false
  end.

Definition belongs_to_policy (own_origin u : string) : bool :=
  is_some_string (url_origin u) own_origin
  || is_some_string (url_host u) "fonts.googleapis.com"
  || is_some_string (url_host u) "fonts.gstatic.com".

(** A URL "uses an http/https scheme". *)
Definition http_scheme (u : string) : bool :=
  (url_scheme u =? "http") || (url_scheme u =? "https").

End SpecPolicy.

(** ** The worker's life

    A worker version handles fetch events only once it is active, and it
    becomes active only after its install promise has fulfilled and its
    activate handler has run.  Messages reach it from the moment it is
    installed.  [s0] is the cache storage the installation finds; the
    network of each event may answer, fail or hang. *)

Inductive phase : Type := Waiting | Active.

Inductive reachable (location_origin location_dir : string) (s0 : CacheStorage)
  : phase -> world -> Prop :=
| reach_install (net : connection) (w : world) :
    on_install location_origin location_dir net (mkWorld s0 [])
      = (Fulfilled tt, w) ->
    reachable location_origin location_dir s0 Waiting w
| reach_activate (w : world) :
    reachable location_origin location_dir s0 Waiting w ->
    reachable location_origin location_dir s0 Active (snd (on_activate w))
| reach_fetch (net : connection) (request : Request) (w : world) :
    reachable location_origin location_dir s0 Active w ->
    reachable location_origin location_dir s0 Active
      (snd (on_fetch location_origin location_dir net request w))
| reach_message (ph : phase) (event : MessageEvent) (w : world) :
    reachable location_origin location_dir s0 ph w ->
    reachable location_origin location_dir s0 ph (snd (on_message event w)).

(** The entries of the main cache (none when the cache does not exist). *)
Definition main_cache (w : world) : Cache :=
  match find_cache CACHE_NAME (store w) with
  | Some c => c
  | None => []
  end.

(** An entry was written into cache [name] by [add]/[addAll] or by [put]. *)
Definition written (name u : string) (r : Response) (l : list effect) : Prop :=
  In (CacheAdd name u r) l \/ In (CachePut name u r) l.

(** The world once [store_copy] has run. *)
Definition with_copy (request : Request) (r : Response) (w : world) : world :=
  mkWorld
    (storage_update CACHE_NAME (cache_store (url request) r)
       (storage_open CACHE_NAME (store w)))
    (CachePut CACHE_NAME (url request) r :: log w).

(** The world once [store_copy] has run: [cache.put] may refuse the
    response, the main cache has been opened either way. *)
Definition after_copy (request : Request) (r : Response) (w : world) : world :=
  if storable r then with_copy request r w
  else mkWorld (storage_open CACHE_NAME (store w)) (log w).

(** The filter of line 61. *)
Definition obsolete (name : string) : bool :=
  negb (name =? CACHE_NAME) && negb (name =? CACHE_OFFLINE).

(** The world once an entry has been written by [add]/[addAll]. *)
Definition with_added (u : string) (r : Response) (w : world) : world :=
  mkWorld (storage_update CACHE_NAME (cache_store u r) (store w))
    (CacheAdd CACHE_NAME u r :: log w).

Definition logged (e : effect) (w : world) : world :=
  mkWorld (store w) (e :: log w).

(** Calls that read and write nothing in the cache storage. *)
Definition is_read (e : effect) : Prop :=
  match e with
  | CacheLookup _ | NetFetch _ => True
  | _ => False
  end.

(** Every entry of every cache satisfies [P]. *)
Definition entries_satisfy (P : string -> string -> Response -> Prop)
    (s : CacheStorage) : Prop :=
  forall name c u r, In (name, c) s -> In (u, r) c -> P name u r.

(** The main cache holds the offline fallback document. *)
Definition fallback_stored (location_origin location_dir : string)
    (w : world) : Prop :=
  exists c,
    In (CACHE_NAME, c) (store w) /\
    has_url (absolute_url location_origin location_dir OFFLINE_FALLBACK) c = true.

(** Every entry of the main cache was written by [add]/[addAll] or [put]. *)
Definition main_entries_written (w : world) : Prop :=
  entries_satisfy
    (fun name u r => name = CACHE_NAME -> written CACHE_NAME u r (log w))
    (store w).

(** Only the two caches that activation spares exist. *)
Definition only_current (w : world) : Prop :=
  forall name c, In (name, c) (store w) ->
                 name = CACHE_NAME \/ name = CACHE_OFFLINE.

(** Concrete setting used by the examples. *)
Module Example.
Definition origin : string := "https://app.example".
Definition dir : string := "/".
(** A server that answers every URL with status 200: a basic response on
    the worker's origin, a cors response elsewhere. *)
Definition page (u : string) : Response :=
  mkResponse 200 (if JsString.startsWith u origin then basic else cors) u [].
Definition online : network := fun u => Some (page u).
Definition offline : network := fun _ => None.
Definition fresh : world := mkWorld [] [].
(** The world after a fresh installation and activation, all fetches
    succeeding. *)
Definition installed : world :=
  snd (on_activate (snd (on_install origin dir online fresh))).
(** A page of the app that no cache holds, one that the install cached,
    a third-party URL that merely mentions a font host in its query, a
    form submission and a URL whose scheme only begins like http. *)
Definition missing : Request := mkRequest "GET" "https://app.example/api/turnos".
Definition shell : Request := mkRequest "GET" "https://app.example/comensales.html".
Definition third_party : Request :=
  mkRequest "GET" "https://evil.example/?ref=fonts.googleapis.com".
(** A server that answers every URL with 404. *)
Definition not_found : network := fun _ => Some (mkResponse 404 basic "" []).
Definition status_query (reply_ports : list nat) : MessageEvent :=
  mkMessage (Truthy (Some "GET_CACHE_STATUS")) reply_ports.
End Example.

(** ** Notions for the handlers' further properties *)

(** The fetch of [u] delivers a response [cache.add] accepts. *)
Definition fetched_ok (net : network) (u : string) : bool :=
  match net u with
  | Some r => addable r
  | None => false
  end.

(** The URLs the trace shows were requested from the network, most recent
    first. *)
Definition fetched_urls (l : list effect) : list string :=
  flat_map (fun e => match e with NetFetch u => [u] | _ => [] end) l.

Definition main_keys (w : world) : list string := map fst (main_cache w).

Module Scenario.
(** The stylesheet host is down, the rest of the network is up. *)
Definition no_fonts : network :=
  fun u => if JsString.includes u "fonts.googleapis.com" then None
           else Some (Example.page u).
(** The manifest is missing on the server. *)
Definition no_manifest : network :=
  fun u => if JsString.includes u "manifest.json"
           then Some (mkResponse 404 basic "" [])
           else Some (Example.page u).
(** The server answers the manifest with a partial response. *)
Definition partial_manifest : network :=
  fun u => if JsString.includes u "manifest.json"
           then Some (mkResponse 206 basic "part" [])
           else Some (Example.page u).
(** A newer copy of everything. *)
Definition updated : network :=
  fun u => Some (mkResponse 200 basic "v2" []).
(** A network on which no fetch ever settles. *)
Definition stalled : connection := fun _ => Hangs.
(** The cached manifest asked for with a fragment. *)
Definition manifest_v2 : Request :=
  mkRequest "GET" "https://app.example/manifest.json#v2".
Definition skip_waiting : MessageEvent :=
  mkMessage (Truthy (Some "SKIP_WAITING")) [].
Definition ping : MessageEvent := mkMessage (Truthy (Some "PING")) [3].
(** An older storage: a cache of a previous version and the reserved
    offline cache, which the worker never fills itself. *)
Definition legacy : world :=
  mkWorld [ ("registro-escuadrones-v0",
             [("https://app.example/old.html", Example.page "old")]);
            (CACHE_OFFLINE,
             [("https://cdn.example/lib.js", Example.page "lib")]) ] [].
Definition lib : Request := mkRequest "GET" "https://cdn.example/lib.js".
End Scenario.

(** * Properties *)

(** ** Strings *)

Section StringFacts.

Lemma prefix_append (p r : string) : String.prefix p (p ++ r)%string = true.
Proof.
  induction p as [|c p IH]; simpl.
  - now destruct r.
  - destruct (ascii_dec c c) as [_|ne]; [exact IH | now elim ne].
Qed.

Lemma includes_of_prefix (s sub : string) :
  String.prefix sub s = true -> JsString.includes s sub = true.
Proof.
  intros H. destruct s; cbn [JsString.includes]; rewrite H; reflexivity.
Qed.

Lemma includes_append (p r : string) :
  JsString.includes (p ++ r)%string p = true.
Proof. apply includes_of_prefix, prefix_append. Qed.

Lemma prefix_cons_inv (c : ascii) (p s : string) :
  String.prefix (String c p) s = true ->
  exists s', s = String c s' /\ String.prefix p s' = true.
Proof.
  destruct s as [|d s]; simpl; [discriminate|].
  destruct (ascii_dec c d) as [->|]; [|discriminate].
  intros H. now exists s.
Qed.

Lemma take_until_colon_http (u : string) :
  SpecPolicy.take_until [":"%char] u = "http" \/
  SpecPolicy.take_until [":"%char] u = "https" ->
  String.prefix "http" u = true.
Proof.
  intros H.
  assert (P : forall t, SpecPolicy.take_until [":"%char] u = ("http" ++ t)%string ->
                        String.prefix "http" u = true).
  { clear H. intros t E.
    do 4 (destruct u as [|? u]; simpl in E; [discriminate|];
          match type of E with (if ?b then _ else _) = _ => destruct b end;
          [discriminate|]; injection E as -> E).
    destruct u; reflexivity. }
  destruct H as [H|H]; [apply (P ""%string) | apply (P "s"%string)]; exact H.
Qed.

Lemma http_scheme_startsWith (u : string) :
  SpecPolicy.http_scheme u = true -> JsString.startsWith u "http" = true.
Proof.
  unfold SpecPolicy.http_scheme, SpecPolicy.url_scheme, JsString.startsWith.
  intros H.
  apply take_until_colon_http.
  apply orb_true_iff in H. destruct H as [H|H]; apply String.eqb_eq in H; auto.
Qed.

Lemma append_assoc (a b c : string) :
  ((a ++ b) ++ c = a ++ (b ++ c))%string.
Proof. induction a as [|x a IH]; simpl; [reflexivity|now rewrite IH]. Qed.

Lemma prefix_split (p s : string) :
  String.prefix p s = true -> exists r, s = (p ++ r)%string.
Proof.
  revert s. induction p as [|c p IH]; intros s H.
  - now exists s.
  - apply prefix_cons_inv in H as (s' & -> & H).
    destruct (IH _ H) as [r ->]. now exists r.
Qed.

Lemma slice_append (p r : string) :
  JsString.slice (String.length p) (p ++ r)%string = r.
Proof. induction p as [|c p IH]; simpl; [now destruct r|exact IH]. Qed.

Lemma take_until_split (stops : list ascii) (s : string) :
  s = (SpecPolicy.take_until stops s
       ++ JsString.slice (String.length (SpecPolicy.take_until stops s)) s)%string.
Proof.
  induction s as [|c s IH]; simpl; [reflexivity|].
  destruct (SpecPolicy.is_one_of stops c); simpl; [reflexivity|now f_equal].
Qed.

Lemma includes_cons (c : ascii) (s sub : string) :
  JsString.includes s sub = true -> JsString.includes (String c s) sub = true.
Proof. intros H. cbn [JsString.includes]. rewrite H. apply orb_true_r. Qed.

Lemma includes_after (p s sub : string) :
  JsString.includes s sub = true -> JsString.includes (p ++ s)%string sub = true.
Proof.
  intros H. induction p as [|c p IH]; [exact H|].
  simpl. now apply includes_cons.
Qed.

(** A URL [scheme://authority...] taken apart. *)
Lemma url_parts (u : string) :
  String.prefix "://" (SpecPolicy.after_scheme u) = true ->
  exists rest,
    JsString.slice 3 (SpecPolicy.after_scheme u) = rest /\
    u = (SpecPolicy.url_scheme u ++ "://" ++ rest)%string.
Proof.
  intros P. apply prefix_split in P as [rest P]. exists rest.
  split; [now rewrite P|].
  rewrite <- P. apply (take_until_split [":"%char] u).
Qed.

(** A URL contains its own origin and its own host. *)
Lemma includes_url_origin (u o : string) :
  SpecPolicy.url_origin u = Some o -> JsString.includes u o = true.
Proof.
  unfold SpecPolicy.url_origin, SpecPolicy.url_authority.
  destruct (String.prefix "://" (SpecPolicy.after_scheme u)) eqn:P; [|discriminate].
  destruct (url_parts u P) as (rest & S3 & E). rewrite S3. cbn [option_map].
  intros [= <-].
  pose proof (take_until_split ["/"; "?"; "#"]%char rest) as R.
  set (a := SpecPolicy.take_until _ rest) in *.
  set (sc := SpecPolicy.url_scheme u) in *. clearbody sc a.
  rewrite E, R.
  assert (A : (sc ++ "://" ++ a ++ JsString.slice (String.length a) rest
               = (sc ++ "://" ++ a) ++ JsString.slice (String.length a) rest)%string)
    by (rewrite append_assoc; reflexivity).
  rewrite A. apply includes_append.
Qed.

Lemma includes_url_host (u h : string) :
  SpecPolicy.url_host u = Some h -> JsString.includes u h = true.
Proof.
  unfold SpecPolicy.url_host, SpecPolicy.url_authority.
  destruct (String.prefix "://" (SpecPolicy.after_scheme u)) eqn:P; [|discriminate].
  destruct (url_parts u P) as (rest & S3 & E). rewrite S3. cbn [option_map].
  intros [= <-].
  pose proof (take_until_split ["/"; "?"; "#"]%char rest) as R.
  set (a := SpecPolicy.take_until _ rest) in *.
  pose proof (take_until_split [":"%char] a) as H.
  set (h := SpecPolicy.take_until _ a) in *.
  set (sc := SpecPolicy.url_scheme u) in *. clearbody sc a h.
  rewrite E. apply includes_after, (includes_after "://").
  rewrite R, H, append_assoc. apply includes_append.
Qed.

Lemma is_some_string_eq (o : option string) (s : string) :
  SpecPolicy.is_some_string o s = true -> o = Some s.
Proof.
  destruct o as [x|]; simpl; [|discriminate].
  intros E. apply String.eqb_eq in E. now subst.
Qed.

End StringFacts.

(** ** The fetch handler, case by case *)

Ltac run_promise :=
  cbv [then_ catch_ detach resolve reject pending trace get_store set_store
       caches_match caches_match_url caches_open fetch
       fetchPromise fetch_miss skipWaiting clients_claim];
  cbn [fst snd store log url method].

Tactic Notation "run_promise" "in" hyp(H) :=
  cbv [then_ catch_ detach resolve reject pending trace get_store set_store
       caches_match caches_match_url caches_open fetch
       fetchPromise fetch_miss skipWaiting clients_claim] in H;
  cbn [fst snd store log url method] in H.

(** [store_copy] always lets its caller go on, and leaves [after_copy]. *)
Lemma store_copy_run (request : Request) (r : Response) (w : world) :
  store_copy request r w = (Fulfilled tt, after_copy request r w).
Proof.
  unfold store_copy, after_copy, with_copy, cache_put. run_promise.
  destruct (storable r); run_promise; reflexivity.
Qed.

Lemma settled_answers (net : network) (u : string) (r : Response) :
  settled net u = Answers r <-> net u = Some r.
Proof.
  unfold settled. destruct (net u); split; intros H;
    try discriminate; now injection H as ->.
Qed.

Lemma settled_fails (net : network) (u : string) :
  settled net u = Fails <-> net u = None.
Proof. unfold settled. destruct (net u); split; intros H; now try discriminate. Qed.

Lemma settled_never_hangs (net : network) (u : string) :
  settled net u <> Hangs.
Proof. unfold settled. now destruct (net u). Qed.

Section FetchCases.

Variables location_origin location_dir : string.
Variable net : connection.
Variable request : Request.
Variable w : world.

Let handled := on_fetch location_origin location_dir net request w.
Let looked_up : list effect := CacheLookup (url request) :: log w.
Let fetched : list effect := NetFetch (url request) :: looked_up.

Lemma on_fetch_guard :
  method request <> "GET" \/ JsString.startsWith (url request) "http" = false ->
  handled = (NotIntercepted, w).
Proof.
  unfold handled, on_fetch. intros [H|H].
  - apply String.eqb_neq in H. now rewrite H.
  - rewrite H. now destruct (method request =? "GET").
Qed.

Hypothesis is_get : method request = "GET".
Hypothesis is_http : JsString.startsWith (url request) "http" = true.

Lemma on_fetch_hit (cached : Response) :
  storage_match (store w) (url request) = Some cached ->
  fst handled = RespondWith (Fulfilled (Some cached)) /\
  snd handled =
    match net (url request) with
    | Answers r =>
        if (status r =? 200)%Z
        then after_copy request r (mkWorld (store w) fetched)
        else mkWorld (store w) fetched
    | _ => mkWorld (store w) fetched
    end.
Proof.
  intros Hit. unfold handled, on_fetch.
  rewrite is_get, is_http, String.eqb_refl. cbn [negb].
  run_promise. rewrite Hit. run_promise.
  destruct (net (url request)) as [r| |]; run_promise; try now split.
  destruct (status r =? 200)%Z; run_promise; [|now split].
  rewrite store_copy_run. now split.
Qed.

Lemma on_fetch_miss_response (r : Response) :
  storage_match (store w) (url request) = None ->
  net (url request) = Answers r ->
  fst handled = RespondWith (Fulfilled (Some r)) /\
  snd handled =
    if negb (status r =? 200)%Z || response_type_eqb (type r) error
    then mkWorld (store w) fetched
    else if shouldCache location_origin (url request)
         then after_copy request r (mkWorld (store w) fetched)
         else mkWorld (store w) fetched.
Proof.
  intros Miss Net. unfold handled, on_fetch.
  rewrite is_get, is_http, String.eqb_refl. cbn [negb].
  run_promise. rewrite Miss. run_promise. rewrite Net. run_promise.
  destruct (negb (status r =? 200)%Z || response_type_eqb (type r) error);
    run_promise; [now split|].
  destruct (shouldCache location_origin (url request)); run_promise;
    [|now split].
  rewrite store_copy_run. now split.
Qed.

Lemma on_fetch_miss_offline :
  storage_match (store w) (url request) = None ->
  net (url request) = Fails ->
  handled =
    (RespondWith
       (Fulfilled
          (storage_match (store w)
             (absolute_url location_origin location_dir OFFLINE_FALLBACK))),
     mkWorld (store w)
       (CacheLookup (absolute_url location_origin location_dir OFFLINE_FALLBACK)
          :: fetched)).
Proof.
  intros Miss Net. unfold handled, on_fetch.
  rewrite is_get, is_http, String.eqb_refl. cbn [negb].
  run_promise. rewrite Miss. run_promise. rewrite Net. run_promise.
  reflexivity.
Qed.

(** On a miss the answer waits for the network: while the fetch does not
    settle, neither does the promise given to [respondWith]. *)
Lemma on_fetch_miss_hanging :
  storage_match (store w) (url request) = None ->
  net (url request) = Hangs ->
  handled = (RespondWith Pending, mkWorld (store w) fetched).
Proof.
  intros Miss Net. unfold handled, on_fetch.
  rewrite is_get, is_http, String.eqb_refl. cbn [negb].
  run_promise. rewrite Miss. run_promise. rewrite Net. run_promise.
  reflexivity.
Qed.

End FetchCases.

(** ** The cache storage operations, entry by entry *)

Section StorageFacts.

Implicit Types (s : CacheStorage) (c : Cache) (name u v : string) (r : Response).

Lemma same_resource_refl u : same_resource u u = true.
Proof. apply String.eqb_refl. Qed.

Lemma same_resource_trans u v x :
  same_resource u v = true -> same_resource v x = true ->
  same_resource u x = true.
Proof.
  unfold same_resource. intros A B.
  apply String.eqb_eq in A, B. apply String.eqb_eq. congruence.
Qed.

Lemma same_resource_sym u v : same_resource u v = same_resource v u.
Proof. apply String.eqb_sym. Qed.

(** Requests for the same resource match the same entries. *)
Lemma entry_matches_same u v (e : string * Response) :
  same_resource u v = true -> entry_matches u e = entry_matches v e.
Proof.
  unfold entry_matches, same_resource. intros E. apply String.eqb_eq in E.
  now rewrite E.
Qed.

Lemma storable_not_vary_any r : storable r = true -> vary_any r = false.
Proof.
  unfold storable. intros H. apply andb_true_iff in H as [_ H].
  now apply negb_true_iff.
Qed.

Lemma addable_storable r : addable r = true -> storable r = true.
Proof. unfold addable. intros H. now apply andb_true_iff in H as [_ H]. Qed.

Lemma find_cache_In s name c :
  find_cache name s = Some c -> In (name, c) s.
Proof.
  unfold find_cache. destruct (find _ s) as [[n c']|] eqn:F; [|discriminate].
  intros [= ->]. apply find_some in F as [I E].
  apply String.eqb_eq in E. simpl in E. now subst.
Qed.

Lemma find_cache_None s name c :
  find_cache name s = None -> ~ In (name, c) s.
Proof.
  unfold find_cache. destruct (find _ s) eqn:F; [discriminate|].
  intros _ I. apply (find_none _ _ F) in I. simpl in I.
  now rewrite String.eqb_refl in I.
Qed.

Lemma In_cache_store u r c u' r' :
  In (u', r') (cache_store u r c) ->
  (u' = u /\ r' = r) \/ In (u', r') c.
Proof.
  unfold cache_store, cache_remove. intros I.
  apply in_app_or in I as [I|[[= <- <-]|[]]]; [|now left].
  right. now apply filter_In in I.
Qed.

(** A URL the cache answered is still answered once an accepted response
    has been stored, for it or for another URL. *)
Lemma cache_store_keeps u r c v :
  storable r = true ->
  has_url v c = true -> has_url v (cache_store u r c) = true.
Proof.
  intros S H. unfold has_url in *. apply existsb_exists in H as (e & I & M).
  apply existsb_exists. unfold cache_store, cache_remove.
  destruct (entry_matches u e) eqn:U.
  - exists (u, r). split; [apply in_or_app; right; now left|].
    unfold entry_matches in *. cbn [fst snd].
    apply andb_true_iff in M as [M _]. apply andb_true_iff in U as [U _].
    rewrite (storable_not_vary_any _ S). cbn [negb]. rewrite andb_true_r.
    rewrite same_resource_sym in U. exact (same_resource_trans _ _ _ U M).
  - exists e. split; [|exact M]. apply in_or_app. left.
    apply filter_In. split; [exact I|]. now rewrite U.
Qed.

Lemma cache_store_has u r c :
  storable r = true -> has_url u (cache_store u r c) = true.
Proof.
  intros S. unfold has_url, cache_store. rewrite existsb_app. cbn [existsb].
  unfold entry_matches at 2. cbn [fst snd].
  rewrite same_resource_refl, (storable_not_vary_any _ S).
  cbn. now rewrite orb_true_r.
Qed.

Lemma In_storage_open name s n c :
  In (n, c) (storage_open name s) -> In (n, c) s \/ (n = name /\ c = []).
Proof.
  unfold storage_open. destruct (find_cache name s); [now left|].
  intros I. apply in_app_or in I as [I|[[= <- <-]|[]]]; auto.
Qed.

Lemma storage_open_keeps name s n c :
  In (n, c) s -> In (n, c) (storage_open name s).
Proof.
  unfold storage_open. destruct (find_cache name s); [auto|].
  intros I. apply in_or_app. now left.
Qed.

Lemma storage_open_has name s :
  exists c, In (name, c) (storage_open name s).
Proof.
  unfold storage_open. destruct (find_cache name s) as [c|] eqn:F.
  - exists c. now apply find_cache_In.
  - exists []. apply in_or_app. right. now left.
Qed.

Lemma In_storage_update name (f : Cache -> Cache) s n c :
  In (n, c) (storage_update name f s) ->
  (n <> name /\ In (n, c) s) \/
  (n = name /\ exists c0, In (name, c0) s /\ c = f c0).
Proof.
  unfold storage_update. intros I.
  apply in_map_iff in I as [[n0 c0] [E I]]. simpl in E.
  destruct (n0 =? name) eqn:N.
  - apply String.eqb_eq in N. injection E as <- <-. subst. right.
    split; [reflexivity|]. now exists c0.
  - apply String.eqb_neq in N. injection E as <- <-. now left.
Qed.

Lemma storage_update_at name (f : Cache -> Cache) s c :
  In (name, c) s -> In (name, f c) (storage_update name f s).
Proof.
  intros I. unfold storage_update. apply in_map_iff.
  exists (name, c). simpl. now rewrite String.eqb_refl.
Qed.

Lemma find_cache_update_open name (f : Cache -> Cache) s :
  find_cache name (storage_update name f (storage_open name s)) =
  Some (f (match find_cache name s with Some c => c | None => [] end)).
Proof.
  assert (U : forall t, find_cache name (storage_update name f t) =
                        option_map f (find_cache name t)).
  { induction t as [|[n c] t IH]; [reflexivity|].
    unfold find_cache, storage_update in *. simpl.
    destruct (n =? name) eqn:N; simpl; rewrite N; [reflexivity|exact IH]. }
  rewrite U. unfold storage_open.
  destruct (find_cache name s) as [c|] eqn:F; [now rewrite F|].
  assert (A : find_cache name (s ++ [(name, [])]) = Some []).
  { clear U. induction s as [|[n c] t IH].
    - unfold find_cache. simpl. now rewrite String.eqb_refl.
    - unfold find_cache in *. simpl in *.
      destruct (n =? name); [discriminate|now apply IH]. }
  now rewrite A.
Qed.

Lemma find_cache_open name s :
  find_cache name (storage_open name s) =
  Some (match find_cache name s with Some c => c | None => [] end).
Proof.
  unfold storage_open. destruct (find_cache name s) as [c|] eqn:F; [exact F|].
  induction s as [|[n c] t IH].
  - unfold find_cache. simpl. now rewrite String.eqb_refl.
  - unfold find_cache in *. simpl in *.
    destruct (n =? name); [discriminate|now apply IH].
Qed.

(** What [cache.match] answers is the response of an entry for the same
    resource. *)
Lemma cache_match_In c u r :
  cache_match c u = Some r ->
  exists u', In (u', r) c /\ same_resource u' u = true.
Proof.
  unfold cache_match. destruct (find _ c) as [[u' r']|] eqn:F; [|discriminate].
  intros [= ->]. apply find_some in F as [I E].
  unfold entry_matches in E. apply andb_true_iff in E as [E _].
  now exists u'.
Qed.

Lemma cache_match_has c u : has_url u c = true <-> cache_match c u <> None.
Proof.
  unfold has_url, cache_match. split.
  - intros H. apply existsb_exists in H as (e & I & M).
    destruct (find (entry_matches u) c) eqn:F; [discriminate|].
    apply (find_none _ _ F) in I. congruence.
  - destruct (find (entry_matches u) c) as [e|] eqn:F; [|now intros H; elim H].
    intros _. apply find_some in F as [I M]. apply existsb_exists. now exists e.
Qed.

Lemma storage_match_In s u r :
  storage_match s u = Some r ->
  exists name c u',
    In (name, c) s /\ In (u', r) c /\ same_resource u' u = true.
Proof.
  induction s as [|[n c] s IH]; simpl; [discriminate|].
  destruct (cache_match c u) as [r0|] eqn:M.
  - intros [= ->]. apply cache_match_In in M as (u' & I & E).
    exists n, c, u'. split; [now left|now split].
  - intros H. destruct (IH H) as (n' & c' & u' & I & J). exists n', c', u'.
    split; [now right|exact J].
Qed.

Lemma storage_match_some s name c u :
  In (name, c) s -> has_url u c = true -> storage_match s u <> None.
Proof.
  induction s as [|[n c0] s IH]; simpl; [tauto|].
  intros [[= -> ->]|I] J.
  - apply cache_match_has in J. now destruct (cache_match c u).
  - destruct (cache_match c0 u); [discriminate|]. now apply IH.
Qed.

End StorageFacts.

(** ** install, activate and message, as world transformers *)

Ltac run_install :=
  unfold on_install, cache_add, cache_addAll; cbn [map];
  match goal with
  | |- context [absolute_url ?o ?d "./comensales.html"] =>
      change (absolute_url o d "./comensales.html")
        with (o ++ d ++ "comensales.html")%string;
      change (absolute_url o d "./manifest.json")
        with (o ++ d ++ "manifest.json")%string;
      change (absolute_url o d FONTS_CSS) with FONTS_CSS
  end;
  cbn [promise_all combine cache_write_all]; run_promise.

Section HandlerRuns.

Variables location_origin location_dir : string.

Let html : string := (location_origin ++ location_dir ++ "comensales.html")%string.
Let manifest : string := (location_origin ++ location_dir ++ "manifest.json")%string.

Lemma fallback_url :
  absolute_url location_origin location_dir OFFLINE_FALLBACK = html.
Proof. reflexivity. Qed.

Lemma on_install_fulfilled (net : connection) (w w' : world) :
  on_install location_origin location_dir net w = (Fulfilled tt, w') ->
  exists r1 r2,
    net html = Answers r1 /\ addable r1 = true /\
    net manifest = Answers r2 /\ addable r2 = true /\
    let opened :=
      mkWorld (storage_open CACHE_NAME (store w))
        (NetFetch manifest :: NetFetch html :: log w) in
    let seeded :=
      logged (NetFetch FONTS_CSS)
        (with_added manifest r2 (with_added html r1 opened)) in
    w' = logged SkipWaiting seeded \/
    exists rf, net FONTS_CSS = Answers rf /\ addable rf = true /\
               w' = logged SkipWaiting (with_added FONTS_CSS rf seeded).
Proof.
  run_install. fold html manifest.
  destruct (net html) as [r1| |]; run_promise;
    [destruct (addable r1) eqn:A1; run_promise|..];
    (destruct (net manifest) as [r2| |]; run_promise;
     [destruct (addable r2) eqn:A2; run_promise|..]);
    cbn [all_settled]; try discriminate.
  intros H. exists r1, r2. repeat split; trivial.
  destruct (net FONTS_CSS) as [rf| |]; run_promise in H.
  - destruct (addable rf) eqn:Af; run_promise in H; cbn [all_settled] in H.
    + right. exists rf. repeat split; trivial. now injection H as <-.
    + left. now injection H as <-.
  - cbn [all_settled] in H. left. now injection H as <-.
  - cbn [all_settled] in H. discriminate.
Qed.

(** The installation on a network whose fetches all settle. *)
Lemma on_install_run (net : network) (w : world) :
  on_install location_origin location_dir net w =
  let opened :=
    mkWorld (storage_open CACHE_NAME (store w))
      (NetFetch manifest :: NetFetch html :: log w) in
  match net html, net manifest with
  | Some r1, Some r2 =>
      if addable r1 && addable r2
      then
        let seeded :=
          logged (NetFetch FONTS_CSS)
            (with_added manifest r2 (with_added html r1 opened)) in
        (Fulfilled tt,
         logged SkipWaiting
           (if fetched_ok net FONTS_CSS
            then match net FONTS_CSS with
                 | Some rf => with_added FONTS_CSS rf seeded
                 | None => seeded
                 end
            else seeded))
      else (Rejected, opened)
  | _, _ => (Rejected, opened)
  end.
Proof.
  run_install. fold html manifest. unfold settled, fetched_ok.
  destruct (net html) as [r1|]; run_promise;
    [destruct (addable r1); run_promise|];
    (destruct (net manifest) as [r2|]; run_promise;
     [destruct (addable r2); run_promise|]);
    cbn [all_settled andb]; try reflexivity.
  destruct (net FONTS_CSS) as [rf|]; run_promise;
    [destruct (addable rf); run_promise|]; reflexivity.
Qed.

End HandlerRuns.

Section InstallOutcome.

Variables location_origin location_dir : string.

(** The install promise fulfils exactly when both local files were
    fetched and accepted by [addAll]; the stylesheet plays no part. *)
Lemma on_install_outcome (net : network) (w : world) :
  fst (on_install location_origin location_dir net w) = Fulfilled tt <->
  exists r1 r2,
    net (location_origin ++ location_dir ++ "comensales.html")%string = Some r1
    /\ addable r1 = true /\
    net (location_origin ++ location_dir ++ "manifest.json")%string = Some r2
    /\ addable r2 = true.
Proof.
  rewrite on_install_run. cbv zeta.
  destruct (net (location_origin ++ location_dir ++ "comensales.html")%string)
    as [r1|]; [|split; [discriminate|now intros (? & ? & ? & _)]].
  destruct (net (location_origin ++ location_dir ++ "manifest.json")%string)
    as [r2|]; [|split; [discriminate|now intros (? & ? & _ & _ & ? & _)]].
  destruct (addable r1) eqn:A1, (addable r2) eqn:A2; cbn [andb fst]; split;
    try discriminate;
    try (intros (? & ? & [= <-] & ? & [= <-] & ?); congruence).
  intros _. now exists r1, r2.
Qed.

End InstallOutcome.

Section ActivateRun.

Lemma delete_all_run (names : list string) (w : world) :
  exists l,
    promise_all (map (fun name => caches_delete name) names) w =
    (Fulfilled l,
     mkWorld (fold_left (fun s n => storage_delete n s) names (store w))
       (rev (map CacheDelete names) ++ log w)).
Proof.
  revert w. induction names as [|n names IH]; intros w.
  - exists []. now destruct w.
  - cbn [map promise_all]. unfold caches_delete at 1. run_promise.
    destruct (IH (mkWorld (storage_delete n (store w)) (CacheDelete n :: log w)))
      as [l E].
    rewrite E. eexists. cbn [fold_left map rev store log].
    now rewrite <- app_assoc.
Qed.

Lemma delete_all_store (names : list string) (s : CacheStorage) :
  fold_left (fun s n => storage_delete n s) names s =
  filter (fun e => negb (existsb (String.eqb (fst e)) names)) s.
Proof.
  revert s. induction names as [|n names IH]; intros s; cbn [fold_left].
  - induction s as [|e s IHs]; simpl; [reflexivity|now f_equal].
  - rewrite IH. unfold storage_delete.
    induction s as [|e s IHs]; [reflexivity|]. cbn [filter existsb].
    destruct (fst e =? n); cbn [negb orb filter]; [exact IHs|].
    destruct (negb (existsb (String.eqb (fst e)) names)); [now f_equal|exact IHs].
Qed.

Lemma delete_obsolete_store (s : CacheStorage) :
  fold_left (fun s n => storage_delete n s) (filter obsolete (map fst s)) s =
  filter (fun e => (fst e =? CACHE_NAME) || (fst e =? CACHE_OFFLINE)) s.
Proof.
  rewrite delete_all_store. apply filter_ext_in. intros e I.
  assert (E : existsb (String.eqb (fst e)) (filter obsolete (map fst s))
              = obsolete (fst e)).
  { destruct (obsolete (fst e)) eqn:O.
    - apply existsb_exists. exists (fst e). split; [|apply String.eqb_refl].
      apply filter_In. split; [now apply in_map|exact O].
    - destruct (existsb _ _) eqn:X; [|reflexivity].
      apply existsb_exists in X as (n & J & N).
      apply String.eqb_eq in N. subst n.
      apply filter_In in J. destruct J as [_ J]. congruence. }
  rewrite E. unfold obsolete.
  destruct (fst e =? CACHE_NAME), (fst e =? CACHE_OFFLINE); reflexivity.
Qed.

Lemma on_activate_run (w : world) :
  on_activate w =
  (Fulfilled tt,
   mkWorld
     (filter (fun e => (fst e =? CACHE_NAME) || (fst e =? CACHE_OFFLINE))
        (store w))
     (ClientsClaim
        :: rev (map CacheDelete (filter obsolete (map fst (store w))))
        ++ log w)).
Proof.
  unfold on_activate, caches_keys. run_promise.
  destruct (delete_all_run (filter obsolete (map fst (store w))) w) as [l E].
  fold obsolete. rewrite E. cbn [store log].
  now rewrite delete_obsolete_store.
Qed.

End ActivateRun.

Section MessageRun.

Lemma type_is_exclusive (d : js_data) (t t' : string) :
  type_is d t = true -> t <> t' -> type_is d t' = false.
Proof.
  destruct d as [|[s|]]; simpl; try discriminate.
  intros E N. apply String.eqb_eq in E. subst. now apply String.eqb_neq.
Qed.

Lemma on_message_status (event : MessageEvent) (w : world) :
  type_is (data event) "GET_CACHE_STATUS" = true ->
  on_message event w =
  match nth_error (ports event) 0 with
  | Some port =>
      (Fulfilled tt,
       mkWorld (storage_open CACHE_NAME (store w))
         (PostMessage port (map fst (main_cache w)) (length (main_cache w))
            :: log w))
  | None => (Rejected, mkWorld (storage_open CACHE_NAME (store w)) (log w))
  end.
Proof.
  intros T. unfold on_message, ports0_postMessage, cache_keys.
  rewrite T, (type_is_exclusive _ _ "SKIP_WAITING" T) by discriminate.
  run_promise. rewrite find_cache_open. fold (main_cache w).
  rewrite map_map, length_map. cbn [url].
  now destruct (nth_error (ports event) 0).
Qed.

Lemma on_message_other (event : MessageEvent) (w : world) :
  type_is (data event) "GET_CACHE_STATUS" = false ->
  on_message event w =
  (Fulfilled tt,
   if type_is (data event) "SKIP_WAITING" then logged SkipWaiting w else w).
Proof.
  intros T. unfold on_message. rewrite T.
  destruct (type_is (data event) "SKIP_WAITING"); run_promise;
    [reflexivity|now destruct w].
Qed.

End MessageRun.

(** ** Invariants of the cache storage *)

Section EntryInvariants.

Variable P : string -> string -> Response -> Prop.

Lemma entries_open (name : string) (s : CacheStorage) :
  entries_satisfy P s -> entries_satisfy P (storage_open name s).
Proof.
  intros H n c u r I J. apply In_storage_open in I as [I|[_ ->]].
  - exact (H _ _ _ _ I J).
  - destruct J.
Qed.

Lemma entries_write (name u : string) (r : Response) (s : CacheStorage) :
  entries_satisfy P s -> P name u r ->
  entries_satisfy P (storage_update name (cache_store u r) s).
Proof.
  intros H New n c u' r' I J.
  apply In_storage_update in I as [[_ I]|[-> (c0 & I & ->)]].
  - exact (H _ _ _ _ I J).
  - apply In_cache_store in J as [[-> ->]|J]; [exact New|].
    exact (H _ _ _ _ I J).
Qed.

Lemma entries_filter (f : string * Cache -> bool) (s : CacheStorage) :
  entries_satisfy P s -> entries_satisfy P (filter f s).
Proof.
  intros H n c u r I J. apply filter_In in I as [I _]. exact (H _ _ _ _ I J).
Qed.

End EntryInvariants.

Lemma entries_weaken (P Q : string -> string -> Response -> Prop)
    (s : CacheStorage) :
  (forall name u r, P name u r -> Q name u r) ->
  entries_satisfy P s -> entries_satisfy Q s.
Proof. intros PQ H n c u r I J. apply PQ. exact (H _ _ _ _ I J). Qed.

Section FetchWorld.

Variables location_origin location_dir : string.

(** Whatever the request and the network, the fetch handler either only
    reads, or reads and opens the main cache (a copy was refused), or
    reads and then stores one copy: of a status-200 response the network
    gave for the request and [cache.put] accepts. *)
Lemma on_fetch_world (net : connection) (request : Request) (w : world) :
  exists l, Forall is_read l /\
    (snd (on_fetch location_origin location_dir net request w)
       = mkWorld (store w) (l ++ log w)
     \/
     snd (on_fetch location_origin location_dir net request w)
       = mkWorld (storage_open CACHE_NAME (store w)) (l ++ log w)
     \/
     exists r,
       net (url request) = Answers r /\ status r = 200%Z /\
       storable r = true /\
       snd (on_fetch location_origin location_dir net request w)
         = with_copy request r (mkWorld (store w) (l ++ log w))).
Proof.
  destruct (String.eqb_spec (method request) "GET") as [G|G].
  2:{ exists []. split; [constructor|]. left.
      rewrite on_fetch_guard by now left. now destruct w. }
  destruct (JsString.startsWith (url request) "http") eqn:H.
  2:{ exists []. split; [constructor|]. left.
      rewrite on_fetch_guard by now right. now destruct w. }
  assert (Copy : forall r l,
    net (url request) = Answers r -> status r = 200%Z ->
    after_copy request r (mkWorld (store w) (l ++ log w))
      = mkWorld (storage_open CACHE_NAME (store w)) (l ++ log w)
    \/ exists r0,
         net (url request) = Answers r0 /\ status r0 = 200%Z /\
         storable r0 = true /\
         after_copy request r (mkWorld (store w) (l ++ log w))
           = with_copy request r0 (mkWorld (store w) (l ++ log w))).
  { intros r l N S. unfold after_copy. destruct (storable r) eqn:St.
    - right. now exists r.
    - now left. }
  destruct (storage_match (store w) (url request)) as [cached|] eqn:M.
  - destruct (on_fetch_hit location_origin location_dir net request w G H cached M)
      as [_ E].
    exists [NetFetch (url request); CacheLookup (url request)].
    split; [repeat constructor|]. rewrite E.
    destruct (net (url request)) as [r| |] eqn:N; try now left.
    destruct (status r =? 200)%Z eqn:S; [|now left].
    apply Z.eqb_eq in S. right.
    exact (Copy r [NetFetch (url request); CacheLookup (url request)] eq_refl S).
  - destruct (net (url request)) as [r| |] eqn:N.
    + destruct (on_fetch_miss_response location_origin location_dir
                  net request w G H r M N) as [_ E].
      exists [NetFetch (url request); CacheLookup (url request)].
      split; [repeat constructor|]. rewrite E.
      destruct (status r =? 200)%Z eqn:S; cbn [negb orb]; [|now left].
      destruct (response_type_eqb (type r) error); [now left|].
      destruct (shouldCache location_origin (url request)) eqn:C; [|now left].
      apply Z.eqb_eq in S. right.
      exact (Copy r [NetFetch (url request); CacheLookup (url request)] eq_refl S).
    + rewrite (on_fetch_miss_offline location_origin location_dir
                 net request w G H M N).
      exists [CacheLookup (absolute_url location_origin location_dir OFFLINE_FALLBACK);
              NetFetch (url request); CacheLookup (url request)].
      split; [repeat constructor|]. now left.
    + rewrite (on_fetch_miss_hanging location_origin location_dir
                 net request w G H M N).
      exists [NetFetch (url request); CacheLookup (url request)].
      split; [repeat constructor|]. now left.
Qed.

End FetchWorld.

Section Reachability.

Variables location_origin location_dir : string.
Variable s0 : CacheStorage.

Lemma fallback_same_store (w w' : world) :
  store w' = store w ->
  fallback_stored location_origin location_dir w ->
  fallback_stored location_origin location_dir w'.
Proof. unfold fallback_stored. now intros ->. Qed.

Lemma fallback_written (u : string) (r : Response) (w w' : world) :
  storable r = true ->
  store w' = storage_update CACHE_NAME (cache_store u r) (store w) ->
  fallback_stored location_origin location_dir w ->
  fallback_stored location_origin location_dir w'.
Proof.
  intros S E (c & I & J). exists (cache_store u r c).
  split; [|now apply cache_store_keeps].
  rewrite E. now apply storage_update_at.
Qed.

Lemma fallback_opened (w w' : world) :
  store w' = storage_open CACHE_NAME (store w) ->
  fallback_stored location_origin location_dir w ->
  fallback_stored location_origin location_dir w'.
Proof.
  intros E (c & I & J). exists c. split; [|exact J].
  rewrite E. now apply storage_open_keeps.
Qed.

(** A fulfilled installation leaves the fallback document in the main
    cache, whatever the storage held before. *)
Lemma install_stores_fallback (net : connection) (w w' : world) :
  on_install location_origin location_dir net w = (Fulfilled tt, w') ->
  fallback_stored location_origin location_dir w'.
Proof.
  intros H. apply on_install_fulfilled in H.
  destruct H as (r1 & r2 & _ & A1 & _ & A2 & H). cbv zeta in H.
  apply addable_storable in A1, A2.
  set (opened := mkWorld (storage_open CACHE_NAME (store w)) _) in H.
  assert (F1 : fallback_stored location_origin location_dir
                 (with_added (location_origin ++ location_dir ++ "comensales.html")
                    r1 opened)).
  { destruct (storage_open_has CACHE_NAME (store w)) as [c I].
    exists (cache_store (location_origin ++ location_dir ++ "comensales.html") r1 c).
    split.
    - unfold with_added, opened. cbn [store]. now apply storage_update_at.
    - rewrite fallback_url. now apply cache_store_has. }
  assert (F2 := fallback_written _ r2 _
                  (with_added (location_origin ++ location_dir ++ "manifest.json")
                     r2 _) A2 eq_refl F1).
  destruct H as [->|(rf & _ & Af & ->)].
  - exact F2.
  - apply addable_storable in Af.
    eapply (fallback_written FONTS_CSS rf); [exact Af| |exact F2]. reflexivity.
Qed.

Lemma reachable_fallback (ph : phase) (w : world) :
  reachable location_origin location_dir s0 ph w ->
  fallback_stored location_origin location_dir w.
Proof.
  induction 1 as [net w H|w _ IH|net request w _ IH|ph event w _ IH].
  - exact (install_stores_fallback _ _ _ H).
  - rewrite on_activate_run. cbn [snd].
    destruct IH as (c & I & J). exists c. split; [|exact J].
    cbn [store]. apply filter_In. split; [exact I|].
    cbn [fst]. now rewrite String.eqb_refl.
  - destruct (on_fetch_world location_origin location_dir net request w)
      as (l & _ & [->|[->|(r & _ & _ & S & ->)]]).
    + now apply (fallback_same_store w).
    + now apply (fallback_opened w).
    + apply (fallback_written (url request) r
               (mkWorld (storage_open CACHE_NAME (store w)) []));
        [exact S|reflexivity|].
      now apply (fallback_opened w).
  - destruct (type_is (data event) "GET_CACHE_STATUS") eqn:T.
    + rewrite (on_message_status _ _ T).
      destruct (nth_error (ports event) 0); now apply (fallback_opened w).
    + rewrite (on_message_other _ _ T). cbn [snd].
      destruct (type_is (data event) "SKIP_WAITING"); [|exact IH].
      now apply (fallback_same_store w).
Qed.

(** *** Where the entries of the main cache come from *)

Lemma written_mono (name u : string) (r : Response) (l l' : list effect) :
  incl l l' -> written name u r l -> written name u r l'.
Proof. unfold written. intros I [H|H]; [left|right]; now apply I. Qed.

Lemma main_written_log (s : CacheStorage) (l l' : list effect) :
  incl l l' ->
  main_entries_written (mkWorld s l) -> main_entries_written (mkWorld s l').
Proof.
  intros I. apply entries_weaken. cbn [log]. intros name u r H E.
  eapply written_mono; eauto.
Qed.

Lemma main_written_open (s : CacheStorage) (l : list effect) :
  main_entries_written (mkWorld s l) ->
  main_entries_written (mkWorld (storage_open CACHE_NAME s) l).
Proof. apply entries_open. Qed.

Lemma main_written_write (u : string) (r : Response) (s : CacheStorage)
    (l : list effect) :
  written CACHE_NAME u r l ->
  main_entries_written (mkWorld s l) ->
  main_entries_written
    (mkWorld (storage_update CACHE_NAME (cache_store u r) s) l).
Proof. intros W H. apply entries_write; [exact H|]. now intros _. Qed.

Lemma main_written_fresh (l : list effect) :
  find_cache CACHE_NAME s0 = None ->
  main_entries_written (mkWorld (storage_open CACHE_NAME s0) l).
Proof.
  intros Fresh name c u r I J ->. cbn [store] in I.
  apply In_storage_open in I as [I|[_ ->]]; [|destruct J].
  now apply (find_cache_None _ _ c) in Fresh.
Qed.

Lemma main_written_more (l' : list effect) (w : world) :
  main_entries_written w ->
  main_entries_written (mkWorld (store w) (l' ++ log w)).
Proof.
  destruct w as [s l]. apply main_written_log.
  intros e I. apply in_or_app. now right.
Qed.

Lemma main_written_logged (e : effect) (w : world) :
  main_entries_written w -> main_entries_written (logged e w).
Proof. apply (main_written_more [e]). Qed.

Lemma main_written_added (u : string) (r : Response) (w : world) :
  main_entries_written w -> main_entries_written (with_added u r w).
Proof.
  intros H. unfold with_added.
  apply main_written_write; [left; now left|].
  now apply (main_written_more [CacheAdd CACHE_NAME u r]).
Qed.

Lemma main_written_copy (request : Request) (r : Response) (w : world) :
  main_entries_written w -> main_entries_written (with_copy request r w).
Proof.
  intros H. unfold with_copy.
  apply main_written_write; [right; now left|].
  apply main_written_open.
  now apply (main_written_more [CachePut CACHE_NAME (url request) r]).
Qed.

Lemma reachable_written (ph : phase) (w : world) :
  find_cache CACHE_NAME s0 = None ->
  reachable location_origin location_dir s0 ph w ->
  main_entries_written w.
Proof.
  intros Fresh.
  induction 1 as [net w H|w _ IH|net request w _ IH|ph event w _ IH].
  - apply on_install_fulfilled in H.
    destruct H as (r1 & r2 & _ & _ & _ & _ & H). cbv zeta in H.
    destruct H as [->|(rf & _ & _ & ->)].
    + apply main_written_logged, main_written_logged.
      apply main_written_added, main_written_added.
      now apply main_written_fresh.
    + apply main_written_logged, main_written_added, main_written_logged.
      apply main_written_added, main_written_added.
      now apply main_written_fresh.
  - rewrite on_activate_run. cbn [snd].
    apply (main_written_more
             (ClientsClaim
                :: rev (map CacheDelete (filter obsolete (map fst (store w))))))
      in IH.
    revert IH. apply entries_filter.
  - destruct (on_fetch_world location_origin location_dir net request w)
      as (l' & _ & [->|[->|(r & _ & _ & _ & ->)]]).
    + now apply main_written_more.
    + apply (main_written_more l') in IH. revert IH. apply main_written_open.
    + now apply main_written_copy, main_written_more.
  - destruct (type_is (data event) "GET_CACHE_STATUS") eqn:T.
    + rewrite (on_message_status _ _ T).
      destruct (nth_error (ports event) 0); cbn [snd].
      * apply (main_written_more
                 [PostMessage n (map fst (main_cache w)) (length (main_cache w))])
          in IH.
        revert IH. apply main_written_open.
      * destruct w. now apply main_written_open.
    + rewrite (on_message_other _ _ T). cbn [snd].
      destruct (type_is (data event) "SKIP_WAITING"); [|exact IH].
      now apply main_written_logged.
Qed.

(** *** The names of the caches *)

Lemma only_current_opened (w w' : world) :
  store w' = storage_open CACHE_NAME (store w) ->
  only_current w -> only_current w'.
Proof.
  intros E H name c I. rewrite E in I.
  apply In_storage_open in I as [I|[-> _]]; [|now left].
  exact (H _ _ I).
Qed.

Lemma only_current_copy (request : Request) (r : Response) (w : world) :
  only_current w -> only_current (with_copy request r w).
Proof.
  intros H name c I. unfold with_copy in I. cbn [store] in I.
  apply In_storage_update in I as [[_ I]|[-> _]]; [|now left].
  apply In_storage_open in I as [I|[-> _]]; [|now left].
  exact (H _ _ I).
Qed.

End Reachability.

(** * What the handlers guarantee *)

(** ** Activation *)

(** C4: activation fulfils and leaves exactly the caches named by the
    current main cache name or the reserved offline name, each with its
    entries as they were; [caches.delete] is called for exactly the other
    existing names; from {current, "old-v0", "other"} only {current}
    remains. *)
Theorem activate_deletes_exactly_obsolete (w : world) :
  fst (on_activate w) = Fulfilled tt /\
  store (snd (on_activate w)) =
    filter (fun e => (fst e =? CACHE_NAME) || (fst e =? CACHE_OFFLINE)) (store w) /\
  (forall name,
     In (CacheDelete name) (log (snd (on_activate w))) <->
     In (CacheDelete name) (log w) \/
     (In name (map fst (store w)) /\ name <> CACHE_NAME /\ name <> CACHE_OFFLINE)) /\
  (forall current old other l,
     store (snd (on_activate
                   (mkWorld [(CACHE_NAME, current); ("old-v0", old); ("other", other)] l)))
     = [(CACHE_NAME, current)]).
Proof.
  rewrite on_activate_run. cbn [fst snd store log].
  split; [reflexivity|]. split; [reflexivity|]. split; [intros name; split|].
  - intros [H|H]; [discriminate|].
    apply in_app_or in H as [H|H]; [right|now left].
    apply in_rev, in_map_iff in H as (n & [= ->] & H).
    apply filter_In in H as [I O]. split; [exact I|].
    unfold obsolete in O. apply andb_true_iff in O as [A B].
    apply negb_true_iff in A, B. split; now apply String.eqb_neq.
  - intros [H|(I & A & B)]; right; apply in_or_app; [now right|left].
    apply -> in_rev. apply in_map, filter_In. split; [exact I|].
    unfold obsolete. apply String.eqb_neq in A, B. now rewrite A, B.
  - intros current old other l. now rewrite on_activate_run.
Qed.

(** ** The fetch handler *)

(** C5: a GET http(s) request that a cache answers (the match leaves the
    fragment out) is answered with the cached response without waiting for
    the network: the answer is the same whether the refresh fetch is
    answered, fails or never settles, and the refresh has no part in it. *)
Theorem cached_response_is_returned (location_origin location_dir : string)
    (net : connection) (request : Request) (w : world) (cached : Response) :
  method request = "GET" ->
  SpecPolicy.http_scheme (url request) = true ->
  storage_match (store w) (url request) = Some cached ->
  fst (on_fetch location_origin location_dir net request w)
    = RespondWith (Fulfilled (Some cached)) /\
  fst (on_fetch location_origin location_dir (fun _ => Fails) request w)
    = RespondWith (Fulfilled (Some cached)) /\
  fst (on_fetch location_origin location_dir (fun _ => Hangs) request w)
    = RespondWith (Fulfilled (Some cached)) /\
  forall net' : connection,
    fst (on_fetch location_origin location_dir net' request w)
    = fst (on_fetch location_origin location_dir net request w).
Proof.
  intros G H Hit. apply http_scheme_startsWith in H.
  assert (A : forall n, fst (on_fetch location_origin location_dir n request w)
                        = RespondWith (Fulfilled (Some cached))).
  { intros n. now apply on_fetch_hit. }
  repeat split; try apply A. intros net'. now rewrite !A.
Qed.

Lemma cached_response_is_returned_witness :
  fst (on_fetch Example.origin Example.dir Scenario.stalled Scenario.manifest_v2
         Example.installed)
  = RespondWith (Fulfilled (Some (Example.page "https://app.example/manifest.json"))).
Proof.
  apply (cached_response_is_returned Example.origin Example.dir Scenario.stalled
           Scenario.manifest_v2 Example.installed
           (Example.page "https://app.example/manifest.json"));
    vm_compute; reflexivity.
Defined.

(** C7: on a miss, a response the network delivers with a status other
    than 200, or typed as a network error, is what the caller gets; the
    cache storage is left as it was, nothing is written, and the fallback
    document is not looked up. *)
Theorem invalid_response_passes_through (location_origin location_dir : string)
    (net : network) (request : Request) (w : world) (r : Response) :
  method request = "GET" ->
  SpecPolicy.http_scheme (url request) = true ->
  storage_match (store w) (url request) = None ->
  net (url request) = Some r ->
  status r <> 200%Z \/ type r = error ->
  on_fetch location_origin location_dir net request w =
  (RespondWith (Fulfilled (Some r)),
   mkWorld (store w)
     (NetFetch (url request) :: CacheLookup (url request) :: log w)).
Proof.
  intros G H Miss Net Bad. apply http_scheme_startsWith in H.
  apply settled_answers in Net.
  destruct (on_fetch_miss_response location_origin location_dir net request w
              G H r Miss Net) as [A B].
  assert (E : negb (status r =? 200)%Z || response_type_eqb (type r) error = true).
  { destruct Bad as [S| ->]; [|apply orb_true_r].
    apply Z.eqb_neq in S. now rewrite S. }
  rewrite E in B.
  destruct (on_fetch location_origin location_dir net request w) as [o w'].
  simpl in A, B. now subst.
Qed.

Lemma invalid_response_passes_through_witness :
  on_fetch Example.origin Example.dir Example.not_found Example.missing
    Example.installed =
  (RespondWith (Fulfilled (Some (mkResponse 404 basic "" []))),
   mkWorld (store Example.installed)
     (NetFetch (url Example.missing) :: CacheLookup (url Example.missing)
        :: log Example.installed)).
Proof.
  apply (invalid_response_passes_through Example.origin Example.dir
           Example.not_found Example.missing Example.installed
           (mkResponse 404 basic "" []));
    try (vm_compute; reflexivity).
  left. vm_compute. discriminate.
Defined.




(** ** The message handler *)

(** C10: a GET_CACHE_STATUS message that carries no port makes the
    continuation that builds the reply throw (reading [postMessage] of
    [undefined]); nothing is posted. *)
Theorem status_without_port_throws (event : MessageEvent) (w : world) :
  type_is (data event) "GET_CACHE_STATUS" = true ->
  ports event = [] ->
  fst (on_message event w) = Rejected /\
  log (snd (on_message event w)) = log w.
Proof.
  intros T P. rewrite (on_message_status _ _ T), P. now split.
Qed.

Lemma status_without_port_throws_witness :
  fst (on_message (Example.status_query []) Example.installed) = Rejected /\
  log (snd (on_message (Example.status_query []) Example.installed))
    = log Example.installed.
Proof.
  apply (status_without_port_throws (Example.status_query []) Example.installed);
    reflexivity.
Defined.

(** C9: a GET_CACHE_STATUS message with a reply port gets, on that port,
    [{cached, count}] where [cached] is the list of the URLs of the main
    cache's keys and [count] its length; and in every state the worker
    reaches from a storage without the main cache, each listed URL is an
    entry that install ([add]/[addAll]) or the fetch handler ([put])
    wrote. *)
Theorem cache_status_reply (location_origin location_dir : string)
    (s0 : CacheStorage) (ph : phase) (event : MessageEvent) (w : world)
    (port : nat) (others : list nat) :
  type_is (data event) "GET_CACHE_STATUS" = true ->
  ports event = port :: others ->
  exists cached count,
    fst (on_message event w) = Fulfilled tt /\
    log (snd (on_message event w)) = PostMessage port cached count :: log w /\
    cached = map fst (main_cache w) /\
    count = length cached /\
    (find_cache CACHE_NAME s0 = None ->
     reachable location_origin location_dir s0 ph w ->
     forall u, In u cached ->
       exists r, In (u, r) (main_cache w) /\ written CACHE_NAME u r (log w)).
Proof.
  intros T P. exists (map fst (main_cache w)), (length (main_cache w)).
  rewrite (on_message_status _ _ T), P. cbn [nth_error fst snd log].
  repeat split; [now rewrite length_map|].
  intros Fresh R u I.
  apply in_map_iff in I as ([u' r] & <- & I). exists r. split; [exact I|].
  pose proof (reachable_written _ _ _ _ _ Fresh R) as W.
  unfold main_cache in I.
  destruct (find_cache CACHE_NAME (store w)) as [c|] eqn:F; [|destruct I].
  apply find_cache_In in F. exact (W _ _ _ _ F I eq_refl).
Qed.

Lemma installed_is_reachable :
  reachable Example.origin Example.dir [] Active Example.installed.
Proof.
  unfold Example.installed. apply reach_activate.
  apply (reach_install _ _ _ Example.online). vm_compute. reflexivity.
Qed.

Lemma cache_status_reply_witness :
  exists cached count,
    fst (on_message (Example.status_query [7]) Example.installed) = Fulfilled tt /\
    log (snd (on_message (Example.status_query [7]) Example.installed))
      = PostMessage 7 cached count :: log Example.installed /\
    cached = map fst (main_cache Example.installed) /\
    count = length cached /\
    forall u, In u cached ->
      exists r, In (u, r) (main_cache Example.installed) /\
                written CACHE_NAME u r (log Example.installed).
Proof.
  destruct (cache_status_reply Example.origin Example.dir [] Active
              (Example.status_query [7]) Example.installed 7 []
              eq_refl eq_refl)
    as (cached & count & A & B & C & D & E).
  exists cached, count. repeat split; trivial.
  apply E; [reflexivity|exact installed_is_reachable].
Defined.

(** ** Offline fallback *)

(** C1: in every state the active worker reaches (installation fulfilled,
    activation run, then any fetch and message events, from any earlier
    storage), the promise handed to [respondWith] is fulfilled with a
    response object, never rejected and never [undefined]; and a GET
    http(s) request found in no cache while the network is unreachable is
    answered with the stored offline-fallback document. *)
Theorem fetch_always_answers (location_origin location_dir : string)
    (s0 : CacheStorage) (w : world) (net : network) (request : Request) :
  reachable location_origin location_dir s0 Active w ->
  (fst (on_fetch location_origin location_dir net request w) = NotIntercepted \/
   exists r,
     fst (on_fetch location_origin location_dir net request w)
     = RespondWith (Fulfilled (Some r))) /\
  (method request = "GET" ->
   SpecPolicy.http_scheme (url request) = true ->
   storage_match (store w) (url request) = None ->
   net (url request) = None ->
   exists document,
     storage_match (store w)
       (absolute_url location_origin location_dir OFFLINE_FALLBACK)
     = Some document /\
     fst (on_fetch location_origin location_dir net request w)
     = RespondWith (Fulfilled (Some document))).
Proof.
  intros R. apply reachable_fallback in R. destruct R as (c & I & J).
  pose proof (storage_match_some _ _ _ _ I J) as F.
  destruct (storage_match (store w)
              (absolute_url location_origin location_dir OFFLINE_FALLBACK))
    as [document|] eqn:D; [clear F|now elim F].
  split.
  - destruct (String.eqb_spec (method request) "GET") as [G|G];
      [|left; now rewrite on_fetch_guard by now left].
    destruct (JsString.startsWith (url request) "http") eqn:H;
      [|left; now rewrite on_fetch_guard by now right].
    right.
    destruct (storage_match (store w) (url request)) as [cached|] eqn:M.
    + exists cached. now apply on_fetch_hit.
    + destruct (net (url request)) as [r|] eqn:N.
      * exists r. apply on_fetch_miss_response; trivial.
        now apply settled_answers.
      * exists document. apply settled_fails in N.
        rewrite on_fetch_miss_offline by assumption.
        cbn [fst]. now rewrite D.
  - intros G H M N. apply http_scheme_startsWith in H.
    exists document. split; [reflexivity|]. apply settled_fails in N.
    rewrite on_fetch_miss_offline by assumption. cbn [fst]. now rewrite D.
Qed.

Lemma fetch_always_answers_witness :
  exists document,
    storage_match (store Example.installed)
      (absolute_url Example.origin Example.dir OFFLINE_FALLBACK) = Some document /\
    fst (on_fetch Example.origin Example.dir Example.offline Example.missing
           Example.installed)
    = RespondWith (Fulfilled (Some document)).
Proof.
  apply (fetch_always_answers Example.origin Example.dir [] Example.installed
           Example.offline Example.missing installed_is_reachable);
    vm_compute; reflexivity.
Defined.

(** Outside those states nothing stands in for a missing fallback: with
    an empty cache storage the same request settles to [undefined]. *)
Remark fallback_absent_gives_undefined :
  fst (on_fetch Example.origin Example.dir Example.offline Example.missing
         Example.fresh)
  = RespondWith (Fulfilled None).
Proof. vm_compute. reflexivity. Qed.

(** ** Installation *)

(** C2, at an installation where every fetch succeeds: [ASSETS_TO_CACHE]
    lists the two icons among the files cached at install, the install
    promise fulfils, and the main cache holds the document, the manifest
    and the stylesheet but neither icon. *)
Theorem install_leaves_icons_out :
  In "./icon-192.png" ASSETS_TO_CACHE /\
  In "./icon-512.png" ASSETS_TO_CACHE /\
  fst (on_install Example.origin Example.dir Example.online Example.fresh)
    = Fulfilled tt /\
  map fst
    (main_cache
       (snd (on_install Example.origin Example.dir Example.online Example.fresh)))
    = [ "https://app.example/comensales.html";
        "https://app.example/manifest.json";
        FONTS_CSS ] /\
  has_url (absolute_url Example.origin Example.dir "./icon-192.png")
    (main_cache
       (snd (on_install Example.origin Example.dir Example.online Example.fresh)))
    = false /\
  has_url (absolute_url Example.origin Example.dir "./icon-512.png")
    (main_cache
       (snd (on_install Example.origin Example.dir Example.online Example.fresh)))
    = false.
Proof.
  repeat split; try (vm_compute; reflexivity).
  - right. right. now left.
  - right. right. right. now left.
Qed.

(** What the install handler does guarantee: the promise fulfils exactly
    when the document and the manifest were fetched and accepted by
    [addAll], whatever happens to the stylesheet, and then the main cache
    answers both. *)
Lemma install_mandatory_pair (location_origin location_dir : string)
    (net : network) (w : world) :
  (fst (on_install location_origin location_dir net w) = Fulfilled tt <->
   exists r1 r2,
     net (absolute_url location_origin location_dir "./comensales.html") = Some r1
     /\ addable r1 = true /\
     net (absolute_url location_origin location_dir "./manifest.json") = Some r2
     /\ addable r2 = true) /\
  (fst (on_install location_origin location_dir net w) = Fulfilled tt ->
   forall u, In u ["./comensales.html"; "./manifest.json"] ->
     has_url (absolute_url location_origin location_dir u)
       (main_cache (snd (on_install location_origin location_dir net w))) = true).
Proof.
  split; [apply on_install_outcome|].
  destruct (on_install location_origin location_dir net w) as [o w'] eqn:E.
  cbn [fst snd]. intros ->. apply on_install_fulfilled in E.
  destruct E as (r1 & r2 & _ & A1 & _ & A2 & E). cbv zeta in E.
  apply addable_storable in A1, A2.
  assert (M : exists c, find_cache CACHE_NAME (store w') = Some c /\
              has_url (location_origin ++ location_dir ++ "comensales.html") c = true /\
              has_url (location_origin ++ location_dir ++ "manifest.json") c = true).
  { set (h := (location_origin ++ location_dir ++ "comensales.html")%string) in *.
    set (m := (location_origin ++ location_dir ++ "manifest.json")%string) in *.
    assert (U : forall f s, find_cache CACHE_NAME (storage_update CACHE_NAME f s)
                            = option_map f (find_cache CACHE_NAME s)).
    { intros f s. induction s as [|[n c] t IH]; [reflexivity|].
      unfold find_cache, storage_update in *. simpl.
      destruct (n =? CACHE_NAME) eqn:N; simpl; rewrite N; [reflexivity|exact IH]. }
    destruct E as [->|(rf & _ & Af & ->)]; unfold logged, with_added; cbn [store];
      rewrite ?U, find_cache_open; cbn [option_map]; eexists;
      (split; [reflexivity|split]);
      try apply addable_storable in Af;
      repeat (first [ apply cache_store_has; assumption
                    | apply cache_store_keeps; [assumption|] ]). }
  destruct M as (c & F & H1 & H2). unfold main_cache. rewrite F.
  intros u [<-|[<-|[]]]; assumption.
Qed.

(** ** What the fetch handler stores *)

(** On a miss answered by the network with status 200 (and not typed as an
    error) the caller gets that response, and a copy is handed to
    [cache.put] for the main cache exactly when the URL passes
    [shouldCache]. *)
Lemma miss_200_stored_iff_shouldCache (location_origin location_dir : string)
    (net : network) (request : Request) (w : world) (r : Response) :
  method request = "GET" ->
  JsString.startsWith (url request) "http" = true ->
  storage_match (store w) (url request) = None ->
  net (url request) = Some r ->
  status r = 200%Z -> type r <> error ->
  fst (on_fetch location_origin location_dir net request w)
    = RespondWith (Fulfilled (Some r)) /\
  snd (on_fetch location_origin location_dir net request w) =
    if shouldCache location_origin (url request)
    then after_copy request r
           (mkWorld (store w)
              (NetFetch (url request) :: CacheLookup (url request) :: log w))
    else mkWorld (store w)
           (NetFetch (url request) :: CacheLookup (url request) :: log w).
Proof.
  intros G H M N S T. apply settled_answers in N.
  destruct (on_fetch_miss_response location_origin location_dir net request w
              G H r M N) as [A B].
  split; [exact A|]. rewrite B, S. cbn [Z.eqb Pos.eqb negb orb].
  now destruct (type r).
Qed.

(** One half of the specification's rule does hold: a URL that belongs to
    the worker's origin or to one of the two font hosts passes
    [shouldCache]; it is the converse that the substring test loses. *)
Lemma policy_passes_shouldCache (location_origin u : string) :
  SpecPolicy.belongs_to_policy location_origin u = true ->
  shouldCache location_origin u = true.
Proof.
  unfold SpecPolicy.belongs_to_policy, shouldCache. intros H.
  apply orb_true_iff in H as [H|H]; [apply orb_true_iff in H as [H|H]|];
    apply is_some_string_eq in H.
  - now rewrite (includes_url_origin _ _ H).
  - rewrite (includes_url_host _ _ H). now rewrite orb_true_r.
  - rewrite (includes_url_host _ _ H). now rewrite !orb_true_r.
Qed.

(** C3, at a third-party URL that only mentions an approved font host in
    its query string: the URL belongs neither to the worker's origin nor
    to a font host, it is in no cache, the network answers 200, the caller
    gets the response, and the response is stored in the main cache. *)
Theorem third_party_response_is_stored :
  SpecPolicy.url_origin (url Example.third_party) = Some "https://evil.example" /\
  SpecPolicy.url_host (url Example.third_party) = Some "evil.example" /\
  SpecPolicy.belongs_to_policy Example.origin (url Example.third_party) = false /\
  shouldCache Example.origin (url Example.third_party) = true /\
  storage_match (store Example.installed) (url Example.third_party) = None /\
  Example.online (url Example.third_party)
    = Some (Example.page (url Example.third_party)) /\
  status (Example.page (url Example.third_party)) = 200%Z /\
  fst (on_fetch Example.origin Example.dir Example.online Example.third_party
         Example.installed)
    = RespondWith (Fulfilled (Some (Example.page (url Example.third_party)))) /\
  cache_match
    (main_cache
       (snd (on_fetch Example.origin Example.dir Example.online
               Example.third_party Example.installed)))
    (url Example.third_party)
    = Some (Example.page (url Example.third_party)).
Proof. repeat split; vm_compute; reflexivity. Qed.

(** C6, in the state reached by a fresh installation and activation: the
    fetch handler writes into the main cache the status-200 response of a
    URL that belongs neither to the worker's origin nor to a font host. *)
Theorem fetch_write_outside_policy :
  reachable Example.origin Example.dir [] Active Example.installed /\
  log (snd (on_fetch Example.origin Example.dir Example.online
              Example.third_party Example.installed))
    = CachePut CACHE_NAME (url Example.third_party)
        (Example.page (url Example.third_party))
      :: NetFetch (url Example.third_party)
      :: CacheLookup (url Example.third_party)
      :: log Example.installed /\
  SpecPolicy.belongs_to_policy Example.origin (url Example.third_party) = false.
Proof.
  split; [exact installed_is_reachable|]. split; vm_compute; reflexivity.
Qed.

(** * Further properties of the handlers *)

(** ** More on the storage operations *)

Section StorageMore.

Implicit Types (s : CacheStorage) (c : Cache) (name u v : string) (r : Response).

Lemma find_cache_update name n (f : Cache -> Cache) s :
  find_cache name (storage_update n f s) =
  if name =? n then option_map f (find_cache name s) else find_cache name s.
Proof.
  induction s as [|[m c] t IH]; [now destruct (name =? n)|].
  unfold find_cache, storage_update in *. cbn [map fst snd].
  destruct (m =? n) eqn:M; cbn [find fst snd option_map].
  - apply String.eqb_eq in M. subst m.
    destruct (String.eqb_spec n name) as [->|N].
    + now rewrite String.eqb_refl.
    + destruct (String.eqb_spec name n) as [->|_]; [now elim N|exact IH].
  - destruct (m =? name) eqn:E; [|exact IH].
    apply String.eqb_eq in E. subst m. rewrite M. reflexivity.
Qed.

Lemma find_cache_open_other name n s :
  name <> n -> find_cache name (storage_open n s) = find_cache name s.
Proof.
  intros N. unfold storage_open. destruct (find_cache n s); [reflexivity|].
  induction s as [|[m c] t IH]; unfold find_cache in *; cbn [find fst snd app].
  - apply String.eqb_neq in N. rewrite String.eqb_sym in N. now rewrite N.
  - destruct (m =? name); [reflexivity|exact IH].
Qed.

Lemma storage_update_other name n (f : Cache -> Cache) s c :
  name <> n -> In (name, c) s -> In (name, c) (storage_update n f s).
Proof.
  intros N I. unfold storage_update. apply in_map_iff. exists (name, c).
  cbn [fst snd]. apply String.eqb_neq in N. now rewrite N.
Qed.

Lemma storage_match_has s v :
  storage_match s v <> None ->
  exists name c, In (name, c) s /\ has_url v c = true.
Proof.
  induction s as [|[n c] s IH]; cbn [storage_match]; [now intros H; elim H|].
  destruct (cache_match c v) as [r|] eqn:M.
  - intros _. exists n, c. split; [now left|].
    apply cache_match_has. now rewrite M.
  - intros H. destruct (IH H) as (n' & c' & I & J). exists n', c'.
    split; [now right|exact J].
Qed.

(** A URL that some cache answers is still answered by some cache when an
    accepted copy is stored in the main cache. *)
Lemma storage_match_kept u r s v :
  storable r = true ->
  storage_match s v <> None ->
  storage_match
    (storage_update CACHE_NAME (cache_store u r) (storage_open CACHE_NAME s)) v
  <> None.
Proof.
  intros S H. apply storage_match_has in H as (name & c & I & J).
  apply (storage_open_keeps CACHE_NAME) in I.
  destruct (String.eqb_spec name CACHE_NAME) as [->|N].
  - apply (storage_update_at CACHE_NAME (cache_store u r)) in I.
    apply (storage_match_some _ _ _ _ I). now apply cache_store_keeps.
  - apply (storage_update_other _ CACHE_NAME (cache_store u r) _ _ N) in I.
    exact (storage_match_some _ _ _ _ I J).
Qed.

Lemma storage_match_open (name : string) (s : CacheStorage) (u : string) :
  storage_match (storage_open name s) u = storage_match s u.
Proof.
  unfold storage_open. destruct (find_cache name s); [reflexivity|].
  induction s as [|[n c] t IH]; [reflexivity|].
  cbn [app storage_match]. now destruct (cache_match c u).
Qed.

End StorageMore.

(** ** Installation, run by run *)

Lemma main_cache_added (u : string) (r : Response) (w : world) (c : Cache) :
  find_cache CACHE_NAME (store w) = Some c ->
  find_cache CACHE_NAME (store (with_added u r w)) = Some (cache_store u r c).
Proof.
  intros F. unfold with_added. cbn [store].
  now rewrite find_cache_update, String.eqb_refl, F.
Qed.

(** X2: when the document or the manifest cannot be fetched with
    an ok status, the install promise rejects and nothing has been cached:
    the storage is the old one with, at most, a new empty main cache; the
    trace gains the two fetches only, so the stylesheet was not requested
    and [skipWaiting] was not called. *)
Theorem failed_install_caches_nothing (location_origin location_dir : string)
    (net : network) (w : world) :
  fetched_ok net (absolute_url location_origin location_dir "./comensales.html")
  && fetched_ok net (absolute_url location_origin location_dir "./manifest.json")
  = false ->
  on_install location_origin location_dir net w =
  (Rejected,
   mkWorld (storage_open CACHE_NAME (store w))
     (NetFetch (absolute_url location_origin location_dir "./manifest.json")
        :: NetFetch (absolute_url location_origin location_dir "./comensales.html")
        :: log w)).
Proof.
  change (absolute_url location_origin location_dir "./comensales.html")
    with (location_origin ++ location_dir ++ "comensales.html")%string.
  change (absolute_url location_origin location_dir "./manifest.json")
    with (location_origin ++ location_dir ++ "manifest.json")%string.
  unfold fetched_ok. rewrite on_install_run. cbv zeta. intros H.
  destruct (net (location_origin ++ location_dir ++ "comensales.html")%string);
    [|reflexivity].
  destruct (net (location_origin ++ location_dir ++ "manifest.json")%string);
    [|reflexivity].
  now rewrite H.
Qed.

Lemma failed_install_caches_nothing_witness :
  on_install Example.origin Example.dir Scenario.no_manifest Example.fresh =
  (Rejected,
   mkWorld [(CACHE_NAME, [])]
     [NetFetch "https://app.example/manifest.json";
      NetFetch "https://app.example/comensales.html"]).
Proof.
  apply (failed_install_caches_nothing Example.origin Example.dir
           Scenario.no_manifest Example.fresh).
  vm_compute. reflexivity.
Defined.

(** X3: after a fulfilled installation the main cache answers the
    document and the manifest, and the stylesheet when its fetch gave a
    response [cache.add] accepts; and every URL it lists is one it listed
    before, the document, the manifest or that stylesheet: nothing else is
    added, whatever the network offers. *)
Theorem install_cache_contents (location_origin location_dir : string)
    (net : network) (w w' : world) :
  on_install location_origin location_dir net w = (Fulfilled tt, w') ->
  has_url (absolute_url location_origin location_dir "./comensales.html")
    (main_cache w') = true /\
  has_url (absolute_url location_origin location_dir "./manifest.json")
    (main_cache w') = true /\
  (fetched_ok net FONTS_CSS = true -> has_url FONTS_CSS (main_cache w') = true) /\
  forall u,
    In u (main_keys w') ->
    In u (main_keys w)
    \/ u = absolute_url location_origin location_dir "./comensales.html"
    \/ u = absolute_url location_origin location_dir "./manifest.json"
    \/ (u = FONTS_CSS /\ fetched_ok net FONTS_CSS = true).
Proof.
  change (absolute_url location_origin location_dir "./comensales.html")
    with (location_origin ++ location_dir ++ "comensales.html")%string.
  change (absolute_url location_origin location_dir "./manifest.json")
    with (location_origin ++ location_dir ++ "manifest.json")%string.
  rewrite on_install_run. cbv zeta.
  set (h := (location_origin ++ location_dir ++ "comensales.html")%string).
  set (m := (location_origin ++ location_dir ++ "manifest.json")%string).
  destruct (net h) as [r1|]; [|discriminate].
  destruct (net m) as [r2|]; [|discriminate].
  destruct (addable r1) eqn:A1; [|discriminate].
  destruct (addable r2) eqn:A2; [|discriminate]. cbn [andb].
  apply addable_storable in A1, A2.
  set (opened := mkWorld (storage_open CACHE_NAME (store w)) _).
  assert (O : find_cache CACHE_NAME (store opened) = Some (main_cache w))
    by (unfold opened, main_cache; cbn [store]; now rewrite find_cache_open).
  pose proof (main_cache_added h r1 _ _ O) as O1.
  pose proof (main_cache_added m r2 _ _ O1) as O2.
  set (c2 := cache_store m r2 (cache_store h r1 (main_cache w))) in *.
  assert (H2 : has_url h c2 = true /\ has_url m c2 = true).
  { split; [apply cache_store_keeps; trivial|]; now apply cache_store_has. }
  assert (K2 : forall u, In u (map fst c2) ->
                         In u (main_keys w) \/ u = h \/ u = m).
  { intros u I. apply in_map_iff in I as ([u' r'] & <- & I). cbn [fst].
    apply In_cache_store in I as [[-> _]|I]; [auto|].
    apply In_cache_store in I as [[-> _]|I]; [auto|].
    left. now apply (in_map fst) in I. }
  intros [= <-]. unfold fetched_ok.
  destruct (net FONTS_CSS) as [rf|]; [destruct (addable rf) eqn:Af|].
  - apply addable_storable in Af.
    pose proof (main_cache_added FONTS_CSS rf
                  (logged (NetFetch FONTS_CSS) (with_added m r2 (with_added h r1 opened)))
                  _ O2) as O3.
    assert (MC : main_cache
                   (logged SkipWaiting
                      (with_added FONTS_CSS rf
                         (logged (NetFetch FONTS_CSS)
                            (with_added m r2 (with_added h r1 opened)))))
                 = cache_store FONTS_CSS rf c2)
      by (unfold main_cache, logged at 1; cbn [store]; now rewrite O3).
    unfold main_keys. rewrite MC.
    destruct H2 as [Hh Hm].
    split; [now apply cache_store_keeps|].
    split; [now apply cache_store_keeps|].
    split; [intros _; now apply cache_store_has|].
    intros u I. apply in_map_iff in I as ([u' r'] & <- & I). cbn [fst].
    apply In_cache_store in I as [[-> _]|I]; [auto 6|].
    apply (in_map fst) in I. destruct (K2 _ I) as [?|[?|?]]; auto.
  - assert (MC : main_cache
                   (logged SkipWaiting
                      (logged (NetFetch FONTS_CSS)
                         (with_added m r2 (with_added h r1 opened))))
                 = c2)
      by (unfold main_cache, logged; cbn [store]; now rewrite O2).
    unfold main_keys. rewrite MC.
    destruct H2 as [Hh Hm].
    split; [exact Hh|]. split; [exact Hm|]. split; [discriminate|].
    intros u I. destruct (K2 _ I) as [?|[?|?]]; auto.
  - assert (MC : main_cache
                   (logged SkipWaiting
                      (logged (NetFetch FONTS_CSS)
                         (with_added m r2 (with_added h r1 opened))))
                 = c2)
      by (unfold main_cache, logged; cbn [store]; now rewrite O2).
    unfold main_keys. rewrite MC.
    destruct H2 as [Hh Hm].
    split; [exact Hh|]. split; [exact Hm|]. split; [discriminate|].
    intros u I. destruct (K2 _ I) as [?|[?|?]]; auto.
Qed.

Lemma install_cache_contents_witness :
  has_url (absolute_url Example.origin Example.dir "./comensales.html")
    (main_cache (snd (on_install Example.origin Example.dir Scenario.no_fonts
                        Example.fresh))) = true /\
  has_url (absolute_url Example.origin Example.dir "./manifest.json")
    (main_cache (snd (on_install Example.origin Example.dir Scenario.no_fonts
                        Example.fresh))) = true /\
  (fetched_ok Scenario.no_fonts FONTS_CSS = true ->
   has_url FONTS_CSS
     (main_cache (snd (on_install Example.origin Example.dir Scenario.no_fonts
                         Example.fresh))) = true) /\
  forall u,
    In u (main_keys (snd (on_install Example.origin Example.dir Scenario.no_fonts
                            Example.fresh))) ->
    In u (main_keys Example.fresh)
    \/ u = absolute_url Example.origin Example.dir "./comensales.html"
    \/ u = absolute_url Example.origin Example.dir "./manifest.json"
    \/ (u = FONTS_CSS /\ fetched_ok Scenario.no_fonts FONTS_CSS = true).
Proof.
  apply (install_cache_contents Example.origin Example.dir Scenario.no_fonts
           Example.fresh
           (snd (on_install Example.origin Example.dir Scenario.no_fonts
                   Example.fresh))).
  vm_compute. reflexivity.
Defined.

(** X1: the install promise fulfils exactly when the document and the
    manifest are both fetched with a response [addAll] accepts (of a type
    other than error, with an ok status other than 206, without
    [Vary: *]); what happens to the stylesheet changes nothing to that, and
    a fulfilled installation has called [skipWaiting] as its last step. *)
Theorem install_fulfils_iff_mandatory (location_origin location_dir : string)
    (net : network) (w : world) :
  (fst (on_install location_origin location_dir net w) = Fulfilled tt <->
   fetched_ok net (absolute_url location_origin location_dir "./comensales.html")
   && fetched_ok net (absolute_url location_origin location_dir "./manifest.json")
   = true) /\
  (fst (on_install location_origin location_dir net w) = Fulfilled tt ->
   exists l, log (snd (on_install location_origin location_dir net w))
             = SkipWaiting :: l).
Proof.
  change (absolute_url location_origin location_dir "./comensales.html")
    with (location_origin ++ location_dir ++ "comensales.html")%string.
  change (absolute_url location_origin location_dir "./manifest.json")
    with (location_origin ++ location_dir ++ "manifest.json")%string.
  unfold fetched_ok. rewrite on_install_run. cbv zeta.
  destruct (net (location_origin ++ location_dir ++ "comensales.html")%string)
    as [r1|]; [|cbn; intuition discriminate].
  destruct (net (location_origin ++ location_dir ++ "manifest.json")%string)
    as [r2|]; [|cbn; rewrite andb_false_r; intuition discriminate].
  destruct (addable r1 && addable r2); cbn [fst snd]; [|intuition discriminate].
  split; [tauto|].
  intros _. unfold logged at 1. cbn [log]. eexists. reflexivity.
Qed.

(** A partial response for the manifest is refused by [addAll]: the
    installation rejects although the status is an ok one. *)
Remark partial_manifest_install_rejects :
  fst (on_install Example.origin Example.dir Scenario.partial_manifest
         Example.fresh) = Rejected.
Proof. vm_compute. reflexivity. Qed.

(** ** Activation, again *)

Lemma spared_twice (s : CacheStorage) :
  filter (fun e => (fst e =? CACHE_NAME) || (fst e =? CACHE_OFFLINE))
    (filter (fun e => (fst e =? CACHE_NAME) || (fst e =? CACHE_OFFLINE)) s)
  = filter (fun e => (fst e =? CACHE_NAME) || (fst e =? CACHE_OFFLINE)) s.
Proof.
  induction s as [|e s IH]; [reflexivity|]. cbn [filter].
  destruct ((fst e =? CACHE_NAME) || (fst e =? CACHE_OFFLINE)) eqn:K;
    [|exact IH].
  cbn [filter]. rewrite K. now f_equal.
Qed.

Lemma nothing_obsolete_left (s : CacheStorage) :
  filter obsolete
    (map fst
       (filter (fun e => (fst e =? CACHE_NAME) || (fst e =? CACHE_OFFLINE)) s))
  = [].
Proof.
  induction s as [|e s IH]; [reflexivity|]. cbn [filter].
  destruct ((fst e =? CACHE_NAME) || (fst e =? CACHE_OFFLINE)) eqn:K;
    [|exact IH].
  cbn [map filter]. unfold obsolete at 1.
  rewrite <- negb_orb, K. cbn [negb]. exact IH.
Qed.

(** X4: activating again changes nothing: a second activation finds no
    cache to delete, leaves the storage as the first one left it and only
    claims the clients once more. *)
Theorem activate_is_idempotent (w : world) :
  on_activate (snd (on_activate w)) =
  (Fulfilled tt, logged ClientsClaim (snd (on_activate w))).
Proof.
  rewrite (on_activate_run (snd (on_activate w))).
  rewrite (on_activate_run w). cbn [snd store log].
  rewrite nothing_obsolete_left, spared_twice. reflexivity.
Qed.

(** ** The fetch handler and the storage *)

(** X8: the fetch handler never evicts: a URL that some cache answers
    before a fetch event is still answered by some cache after it,
    whatever the request and the network were. *)
Theorem fetch_never_evicts (location_origin location_dir : string)
    (net : connection) (request : Request) (w : world) (u : string) :
  storage_match (store w) u <> None ->
  storage_match
    (store (snd (on_fetch location_origin location_dir net request w))) u
  <> None.
Proof.
  intros H.
  destruct (on_fetch_world location_origin location_dir net request w)
    as (l & _ & [->|[->|(r & _ & _ & S & ->)]]); [exact H| |].
  - cbn [store]. now rewrite storage_match_open.
  - unfold with_copy. cbn [store]. now apply storage_match_kept.
Qed.

Lemma fetch_never_evicts_witness :
  storage_match
    (store (snd (on_fetch Example.origin Example.dir Scenario.updated
                   Example.missing Example.installed)))
    "https://app.example/manifest.json"
  <> None.
Proof.
  apply (fetch_never_evicts Example.origin Example.dir Scenario.updated
           Example.missing Example.installed "https://app.example/manifest.json").
  vm_compute. discriminate.
Defined.

(** X9: the fetch handler writes to the main cache only: every cache of
    another name is after the event exactly what it was before. *)
Theorem fetch_touches_only_main_cache (location_origin location_dir : string)
    (net : connection) (request : Request) (w : world) (name : string) :
  name <> CACHE_NAME ->
  find_cache name
    (store (snd (on_fetch location_origin location_dir net request w)))
  = find_cache name (store w).
Proof.
  intros N.
  destruct (on_fetch_world location_origin location_dir net request w)
    as (l & _ & [->|[->|(r & _ & _ & _ & ->)]]); [reflexivity| |].
  - cbn [store]. now apply find_cache_open_other.
  - unfold with_copy. cbn [store]. rewrite find_cache_update.
    apply String.eqb_neq in N. rewrite N. apply String.eqb_neq in N.
    now apply find_cache_open_other.
Qed.

Lemma fetch_touches_only_main_cache_witness :
  find_cache CACHE_OFFLINE
    (store (snd (on_fetch Example.origin Example.dir Scenario.updated
                   Scenario.lib Scenario.legacy)))
  = find_cache CACHE_OFFLINE (store Scenario.legacy).
Proof.
  apply (fetch_touches_only_main_cache Example.origin Example.dir
           Scenario.updated Scenario.lib Scenario.legacy CACHE_OFFLINE).
  vm_compute. discriminate.
Defined.

(** X10: cache first does not mean network never: every intercepted
    request, hit or miss, makes exactly one network fetch, for the
    request's own URL. *)
Theorem one_network_fetch_per_request (location_origin location_dir : string)
    (net : connection) (request : Request) (w : world) :
  method request = "GET" ->
  JsString.startsWith (url request) "http" = true ->
  fetched_urls (log (snd (on_fetch location_origin location_dir net request w)))
  = url request :: fetched_urls (log w).
Proof.
  intros G H.
  assert (C : forall r l,
             fetched_urls (log (after_copy request r (mkWorld (store w) l)))
             = fetched_urls l).
  { intros r l. unfold after_copy. now destruct (storable r). }
  destruct (storage_match (store w) (url request)) as [cached|] eqn:M.
  - destruct (on_fetch_hit location_origin location_dir net request w G H cached M)
      as [_ ->].
    destruct (net (url request)) as [r| |]; [destruct (status r =? 200)%Z|..];
      rewrite ?C; reflexivity.
  - destruct (net (url request)) as [r| |] eqn:N.
    + destruct (on_fetch_miss_response location_origin location_dir
                  net request w G H r M N) as [_ ->].
      destruct (negb (status r =? 200)%Z || response_type_eqb (type r) error);
        [reflexivity|].
      destruct (shouldCache location_origin (url request)); rewrite ?C;
        reflexivity.
    + now rewrite (on_fetch_miss_offline location_origin location_dir
                     net request w G H M N).
    + now rewrite (on_fetch_miss_hanging location_origin location_dir
                     net request w G H M N).
Qed.

Lemma one_network_fetch_per_request_witness :
  fetched_urls
    (log (snd (on_fetch Example.origin Example.dir Example.online Example.shell
                 Example.installed)))
  = url Example.shell :: fetched_urls (log Example.installed).
Proof.
  apply (one_network_fetch_per_request Example.origin Example.dir Example.online
           Example.shell Example.installed);
    vm_compute; reflexivity.
Defined.

(** X11: the last resort can come up empty.  On a miss with the network
    down, when no cache holds the fallback document either, the promise
    given to [respondWith] is fulfilled with [undefined]: it is not
    rejected, and nothing is stored. *)
Theorem offline_miss_without_fallback (location_origin location_dir : string)
    (net : network) (request : Request) (w : world) :
  method request = "GET" ->
  JsString.startsWith (url request) "http" = true ->
  storage_match (store w) (url request) = None ->
  net (url request) = None ->
  storage_match (store w)
    (absolute_url location_origin location_dir OFFLINE_FALLBACK) = None ->
  fst (on_fetch location_origin location_dir net request w)
    = RespondWith (Fulfilled None) /\
  store (snd (on_fetch location_origin location_dir net request w)) = store w.
Proof.
  intros G H M N F. apply settled_fails in N.
  rewrite (on_fetch_miss_offline location_origin location_dir net request w G H M N).
  cbn [fst snd store]. now rewrite F.
Qed.

Lemma offline_miss_without_fallback_witness :
  fst (on_fetch Example.origin Example.dir Example.offline Example.missing
         Scenario.legacy)
    = RespondWith (Fulfilled None) /\
  store (snd (on_fetch Example.origin Example.dir Example.offline Example.missing
                Scenario.legacy))
    = store Scenario.legacy.
Proof.
  apply (offline_miss_without_fallback Example.origin Example.dir Example.offline
           Example.missing Scenario.legacy);
    vm_compute; reflexivity.
Defined.

(** X19: a miss waits for the network, and nothing bounds the wait: while
    the fetch of the request does not settle, the promise given to
    [respondWith] does not settle either, and the fallback document is not
    looked up. *)
Theorem miss_waits_for_network (location_origin location_dir : string)
    (net : connection) (request : Request) (w : world) :
  method request = "GET" ->
  JsString.startsWith (url request) "http" = true ->
  storage_match (store w) (url request) = None ->
  net (url request) = Hangs ->
  on_fetch location_origin location_dir net request w =
  (RespondWith Pending,
   mkWorld (store w)
     (NetFetch (url request) :: CacheLookup (url request) :: log w)).
Proof. intros G H M N. now apply on_fetch_miss_hanging. Qed.

Lemma miss_waits_for_network_witness :
  on_fetch Example.origin Example.dir Scenario.stalled Example.missing
    Example.installed =
  (RespondWith Pending,
   mkWorld (store Example.installed)
     (NetFetch (url Example.missing) :: CacheLookup (url Example.missing)
        :: log Example.installed)).
Proof.
  apply (miss_waits_for_network Example.origin Example.dir Scenario.stalled
           Example.missing Example.installed);
    vm_compute; reflexivity.
Defined.

(** ** The message handler and the storage *)

(** X12: a message that is neither SKIP_WAITING nor GET_CACHE_STATUS, be
    its data falsy, without a type or of another type, and whatever ports
    it carries, is ignored: no platform call, no reply, no exception. *)
Theorem unrecognised_message_ignored (event : MessageEvent) (w : world) :
  type_is (data event) "SKIP_WAITING" = false ->
  type_is (data event) "GET_CACHE_STATUS" = false ->
  on_message event w = (Fulfilled tt, w).
Proof.
  intros S G. rewrite (on_message_other _ _ G). now rewrite S.
Qed.

Lemma unrecognised_message_ignored_witness :
  on_message Scenario.ping Example.installed = (Fulfilled tt, Example.installed).
Proof.
  apply (unrecognised_message_ignored Scenario.ping Example.installed);
    reflexivity.
Defined.

(** X13: asking for the cache status is not read-only.  When the main
    cache does not exist, a GET_CACHE_STATUS message creates it, empty and
    last in the storage, and the reply is an empty list with count 0. *)
Theorem status_query_creates_cache (event : MessageEvent) (w : world)
    (port : nat) (others : list nat) :
  type_is (data event) "GET_CACHE_STATUS" = true ->
  ports event = port :: others ->
  find_cache CACHE_NAME (store w) = None ->
  on_message event w =
  (Fulfilled tt,
   mkWorld (store w ++ [(CACHE_NAME, [])]) (PostMessage port [] 0 :: log w)).
Proof.
  intros T P F. rewrite (on_message_status _ _ T), P. cbn [nth_error].
  unfold main_cache, storage_open. now rewrite F.
Qed.

Lemma status_query_creates_cache_witness :
  on_message (Example.status_query [7]) Scenario.legacy =
  (Fulfilled tt,
   mkWorld (store Scenario.legacy ++ [(CACHE_NAME, [])])
     (PostMessage 7 [] 0 :: log Scenario.legacy)).
Proof.
  apply (status_query_creates_cache (Example.status_query [7]) Scenario.legacy
           7 []); reflexivity.
Defined.

(** X14: no message changes what a URL is answered with: after any
    message, with or without a port, [caches.match] gives for every URL
    what it gave before. *)
Theorem message_keeps_answers (event : MessageEvent) (w : world) (u : string) :
  storage_match (store (snd (on_message event w))) u = storage_match (store w) u.
Proof.
  destruct (type_is (data event) "GET_CACHE_STATUS") eqn:T.
  - rewrite (on_message_status _ _ T).
    destruct (nth_error (ports event) 0); cbn [snd store];
      apply storage_match_open.
  - rewrite (on_message_other _ _ T). cbn [snd].
    now destruct (type_is (data event) "SKIP_WAITING").
Qed.


(** ** What is not stored, and what activation leaves *)

(** X16: a miss never stores a URL that fails [shouldCache]: whatever the
    network delivers for it, the caller gets that response and the storage
    is left as it was, so the next request for the URL is a miss again. *)
Theorem miss_outside_shouldCache_not_stored
    (location_origin location_dir : string)
    (net : network) (request : Request) (w : world) (r : Response) :
  method request = "GET" ->
  JsString.startsWith (url request) "http" = true ->
  storage_match (store w) (url request) = None ->
  net (url request) = Some r ->
  shouldCache location_origin (url request) = false ->
  fst (on_fetch location_origin location_dir net request w)
    = RespondWith (Fulfilled (Some r)) /\
  store (snd (on_fetch location_origin location_dir net request w)) = store w /\
  storage_match
    (store (snd (on_fetch location_origin location_dir net request w)))
    (url request) = None.
Proof.
  intros G H M N C. apply settled_answers in N.
  destruct (on_fetch_miss_response location_origin location_dir net request w
              G H r M N) as [A B].
  split; [exact A|]. rewrite B, C.
  destruct (negb (status r =? 200)%Z || response_type_eqb (type r) error);
    cbn [store]; now split.
Qed.

Lemma miss_outside_shouldCache_not_stored_witness :
  fst (on_fetch Example.origin Example.dir Example.online Scenario.lib
         Example.installed)
    = RespondWith (Fulfilled (Some (Example.page (url Scenario.lib)))) /\
  store (snd (on_fetch Example.origin Example.dir Example.online Scenario.lib
                Example.installed))
    = store Example.installed /\
  storage_match
    (store (snd (on_fetch Example.origin Example.dir Example.online Scenario.lib
                   Example.installed)))
    (url Scenario.lib) = None.
Proof.
  apply (miss_outside_shouldCache_not_stored Example.origin Example.dir
           Example.online Scenario.lib Example.installed
           (Example.page (url Scenario.lib)));
    vm_compute; reflexivity.
Defined.

(** X17: once the worker is active, the storage only ever holds caches
    named by the main cache name or the reserved offline name: nothing the
    fetch and message handlers do brings another cache into being. *)
Theorem active_storage_only_current (location_origin location_dir : string)
    (s0 : CacheStorage) (w : world) :
  reachable location_origin location_dir s0 Active w -> only_current w.
Proof.
  intros R. remember Active as ph eqn:E. revert E.
  induction R as [net w H|w _ _|net request w _ IH|ph event w _ IH]; intros E.
  - discriminate.
  - rewrite on_activate_run. intros name c I. cbn [snd store] in I.
    apply filter_In in I as [_ K]. cbn [fst] in K. apply orb_true_iff in K.
    destruct K as [K|K]; apply String.eqb_eq in K; auto.
  - specialize (IH eq_refl).
    destruct (on_fetch_world location_origin location_dir net request w)
      as (l & _ & [->|[->|(r & _ & _ & _ & ->)]]); [exact IH| |].
    + now apply (only_current_opened w).
    + now apply only_current_copy.
  - specialize (IH E). intros name c I.
    destruct (type_is (data event) "GET_CACHE_STATUS") eqn:T.
    + rewrite (on_message_status _ _ T) in I.
      destruct (nth_error (ports event) 0); cbn [snd store] in I;
        (apply In_storage_open in I as [I|[-> _]]; [exact (IH _ _ I)|now left]).
    + rewrite (on_message_other _ _ T) in I. cbn [snd] in I.
      destruct (type_is (data event) "SKIP_WAITING"); exact (IH _ _ I).
Qed.

Lemma active_storage_only_current_witness : only_current Example.installed.
Proof.
  apply (active_storage_only_current Example.origin Example.dir []
           Example.installed installed_is_reachable).
Defined.

(** X18: activation cuts the old versions off: whatever [caches.match]
    answers after activation is the response of an entry, for the same
    URL up to its fragment, of the main cache or of the reserved offline
    cache as they were before it; an entry held only by an obsolete cache
    is no longer found. *)
Theorem activation_answers_from_spared (w : world) (u : string) (r : Response) :
  storage_match (store (snd (on_activate w))) u = Some r ->
  exists name c u',
    (name = CACHE_NAME \/ name = CACHE_OFFLINE) /\
    In (name, c) (store w) /\ In (u', r) c /\ same_resource u' u = true.
Proof.
  rewrite on_activate_run. cbn [snd store]. intros M.
  apply storage_match_In in M as (name & c & u' & I & J & E).
  apply filter_In in I as [I K]. cbn [fst] in K. apply orb_true_iff in K.
  exists name, c, u'. split; [|now repeat split].
  destruct K as [K|K]; apply String.eqb_eq in K; auto.
Qed.

Lemma activation_answers_from_spared_witness :
  exists name c u',
    (name = CACHE_NAME \/ name = CACHE_OFFLINE) /\
    In (name, c) (store Scenario.legacy) /\
    In (u', Example.page "lib") c /\
    same_resource u' "https://cdn.example/lib.js#top" = true.
Proof.
  apply (activation_answers_from_spared Scenario.legacy
           "https://cdn.example/lib.js#top" (Example.page "lib")).
  vm_compute. reflexivity.
Defined.
